(** * Point location in a mesh: [locate_cell] of firedrake/locate.c

    A shallow embedding of the C function [locate_cell] and the properties
    of its search: the acceptance policy shared by the four candidate loops
    (indexed or exhaustive, flat or extruded), the layered id codec, and the
    handling of the candidate-id buffer.

    Conventions of the embedding.
    - A C [double] is an IEEE 754 binary64 value: Rocq's primitive [float],
      compared with [<=?] and [<?] as C compares doubles (every comparison
      with a NaN is false).  The function does no floating-point arithmetic,
      only comparisons and copies.
    - A C [int] is a [Z].  The function computes [ids[i]-1], [ids[i] / nlayers],
      [ids[i] % nlayers] and [c * n_layers + cell]; C's [/] and [%] truncate
      towards zero ([Z.quot], [Z.rem]).  Signed overflow and division by zero
      are undefined in C, so the model describes the executions in which the
      values stay in range.
    - The reference-coordinate record is opaque: a type parameter. *)

From Stdlib Require Import ZArith List Bool Lia ZifyBool String FinFun Permutation.
From Stdlib Require Import Floats.
Import ListNotations.

Local Open Scope Z_scope.

(* ================================================================= *)
(** ** Doubles and their order *)

Definition double : Type := float.

(** [DBL_MAX] of <float.h>: the largest finite binary64 value. *)
Definition DBL_MAX : double := 0x1.fffffffffffffp+1023%float.

Module DoubleOrder.

(** A key that embeds the comparable doubles (everything but NaN) into
    triples of integers ordered lexicographically: sign class, then
    exponent, then mantissa, the last two negated for negative numbers. *)
Definition sf_key (x : spec_float) : option (Z * Z * Z) :=
  match x with
  | S754_nan => None
  | S754_zero _ => Some (0, 0, 0)
  | S754_infinity true => Some (-2, 0, 0)
  | S754_infinity false => Some (2, 0, 0)
  | S754_finite true m e => Some (-1, - e, Z.neg m)
  | S754_finite false m e => Some (1, e, Z.pos m)
  end.

Definition key_ltb (a b : Z * Z * Z) : bool :=
  let '(a1, a2, a3) := a in
  let '(b1, b2, b3) := b in
  (a1 <? b1) || ((a1 =? b1) && ((a2 <? b2) || ((a2 =? b2) && (a3 <? b3)))).

Definition key_leb (a b : Z * Z * Z) : bool :=
  let '(a1, a2, a3) := a in
  let '(b1, b2, b3) := b in
  (a1 <? b1) || ((a1 =? b1) && ((a2 <? b2) || ((a2 =? b2) && (a3 <=? b3)))).

Definition key_eqb (a b : Z * Z * Z) : bool :=
  let '(a1, a2, a3) := a in
  let '(b1, b2, b3) := b in
  (a1 =? b1) && (a2 =? b2) && (a3 =? b3).

Definition key (x : double) : option (Z * Z * Z) := sf_key (Prim2SF x).

Definition cmp_keys (f : Z * Z * Z -> Z * Z * Z -> bool) (x y : double) : bool :=
  match key x, key y with
  | Some a, Some b => f a b
  | _, _ => false
  end.

End DoubleOrder.

(* ================================================================= *)
(** ** External declarations used by the function *)

(** Modelled from the spec: the status of an index query, the [RTError] of
    <spatialindex/capi/sidx_api.h>, a header that is not among the sources.
    [RT_None] is the status of a query without error, the only one
    [locate_cell] names (lines 17 and 46); the others are the statuses of
    the specification's IndexQueryFailure. *)
Inductive RTError : Type :=
| RT_None | RT_Debug | RT_Warning | RT_Failure | RT_Fatal.

Definition RTError_eqb (a b : RTError) : bool :=
  match a, b with
  | RT_None, RT_None | RT_Debug, RT_Debug | RT_Warning, RT_Warning
  | RT_Failure, RT_Failure | RT_Fatal, RT_Fatal => true
  | _, _ => false
  end.

(** Modelled from the spec: [struct Function], declared in <evaluate.h>,
    a header that is not among the sources, with the fields [locate_cell]
    reads.  The R-tree handle [sidx2] is a pointer: [None] is the null
    pointer, and a non-null handle is represented by what the spatial-index
    capability returns for the query point, the candidate ids that
    [libsupermesh_query_rtree] counts and
    [libsupermesh_query_rtree_intersections] writes to [ids], in that
    order. *)
Record Function : Type := mkFunction {
  n_cols : Z;
  n_layers : Z;
  extruded : Z;
  sidx2 : option (list Z)
}.

(** One invocation of a containment test: the flat test on a cell, or the
    extruded test on a (column, layer) pair. *)
Inductive call : Type :=
| Flat (cell : Z)
| Xtr (column layer : Z).

(** The heap block [ids] of the indexed branch. *)
Inductive buffer : Type :=
| Unallocated
| Live (contents : list Z)
| Released.

(** The message of line 47. *)
Definition index_error_message : string :=
  "ERROR: Index_Intersects_id failed in libspatialindex!".

(** The values of a loop counter running from [0] to [n - 1]. *)
Definition range (n : Z) : list Z := map Z.of_nat (seq 0 (Z.to_nat n)).

(* ================================================================= *)
(** ** The layered id codec (lines 75-77 and 145) *)

Definition encode (column layer layerCount : Z) : Z := column * layerCount + layer.

Definition decode (id layerCount : Z) : Z * Z :=
  (Z.quot id layerCount, Z.rem id layerCount).

(* ================================================================= *)
(** ** The function *)

Section LocateCell.

(** [struct ReferenceCoords], whose layout the generated code fixes. *)
Variable RefCoords : Type.

(** The static [tolerance] of the generated code. *)
Variable tolerance : double.

(** The two containment tests at the query point [x] on the function [f]:
    what they write to [temp_ref_coords] and the distance they return. *)
Variable try_candidate : Z -> RefCoords * double.
Variable try_candidate_xtr : Z -> Z -> RefCoords * double.

(** The locals and the memory the function touches.  [calls] is the log of
    the containment tests invoked so far, oldest first. *)
Record state : Type := mkState {
  cell : Z;
  ref_cell_dist_l1 : double;
  current_ref_cell_dist_l1 : double;
  temp_ref_coords : RefCoords;
  found_ref_coords : RefCoords;
  found_ref_cell_dist_l1 : double;
  ids : buffer;
  stderr : list string;
  calls : list call
}.

Definition set_cell (v : Z) (s : state) : state :=
  mkState v (ref_cell_dist_l1 s) (current_ref_cell_dist_l1 s)
    (temp_ref_coords s) (found_ref_coords s) (found_ref_cell_dist_l1 s)
    (ids s) (stderr s) (calls s).

Definition set_ref_cell_dist_l1 (v : double) (s : state) : state :=
  mkState (cell s) v (current_ref_cell_dist_l1 s)
    (temp_ref_coords s) (found_ref_coords s) (found_ref_cell_dist_l1 s)
    (ids s) (stderr s) (calls s).

Definition set_ids (v : buffer) (s : state) : state :=
  mkState (cell s) (ref_cell_dist_l1 s) (current_ref_cell_dist_l1 s)
    (temp_ref_coords s) (found_ref_coords s) (found_ref_cell_dist_l1 s)
    v (stderr s) (calls s).

Definition fputs (msg : string) (s : state) : state :=
  mkState (cell s) (ref_cell_dist_l1 s) (current_ref_cell_dist_l1 s)
    (temp_ref_coords s) (found_ref_coords s) (found_ref_cell_dist_l1 s)
    (ids s) (stderr s ++ [msg]) (calls s).

(** The call through [try_candidate] or [try_candidate_xtr]: the test [k]
    runs, fills [temp_ref_coords] and its distance is stored in
    [current_ref_cell_dist_l1]. *)
Definition invoke (k : call) (r : RefCoords * double) (s : state) : state :=
  mkState (cell s) (ref_cell_dist_l1 s) (snd r)
    (fst r) (found_ref_coords s) (found_ref_cell_dist_l1 s)
    (ids s) (stderr s) (calls s ++ [k]).

(** [cell = id; memcpy(found_ref_coords, temp_ref_coords, ...);
    found_ref_cell_dist_l1[0] = d]. *)
Definition accept (id : Z) (d : double) (s : state) : state :=
  mkState id (ref_cell_dist_l1 s) (current_ref_cell_dist_l1 s)
    (temp_ref_coords s) (temp_ref_coords s) d
    (ids s) (stderr s) (calls s).

(** The statements every candidate loop runs on a candidate (lines 53-70,
    78-95, 102-119 and 125-142, which differ only in the test invoked and
    in the id stored in [cell]).  The boolean tells whether the loop is
    left by [break]. *)
Definition examine (k : call) (r : RefCoords * double) (id : Z) (s : state)
  : state * bool :=
  let s := invoke k r s in
  if (current_ref_cell_dist_l1 s <=? 0)%float then
    (accept id (current_ref_cell_dist_l1 s) s, true)
  else if (current_ref_cell_dist_l1 s <? ref_cell_dist_l1 s)%float then
    let s := set_ref_cell_dist_l1 (current_ref_cell_dist_l1 s) s in
    if (ref_cell_dist_l1 s <? tolerance)%float then
      (accept id (ref_cell_dist_l1 s) s, false)
    else (s, false)
  else (s, false).

(** A [for] loop over the values [xs] of its counter, left early when the
    body breaks. *)
Fixpoint for_loop {A : Type} (body : A -> state -> state * bool)
    (xs : list A) (s : state) : state :=
  match xs with
  | [] => s
  | x :: xs' =>
      let (s', brk) := body x s in
      if brk then s' else for_loop body xs' s'
  end.

(** Lines 52-70: indexed, flat. *)
Definition body_indexed_flat (id : Z) (s : state) : state * bool :=
  let candidate := id - 1 in
  examine (Flat candidate) (try_candidate candidate) candidate s.

(** Lines 75-95: indexed, extruded. *)
Definition body_indexed_xtr (f : Function) (id : Z) (s : state) : state * bool :=
  let nlayers := n_layers f in
  let '(c, l) := decode id nlayers in
  examine (Xtr c l) (try_candidate_xtr c l) id s.

(** Lines 102-119: exhaustive, flat. *)
Definition body_flat (c : Z) (s : state) : state * bool :=
  examine (Flat c) (try_candidate c) c s.

(** Lines 125-142: exhaustive, extruded, the inner loop over the layers. *)
Definition body_layer (c l : Z) (s : state) : state * bool :=
  examine (Xtr c l) (try_candidate_xtr c l) l s.

(** Lines 124-147: one column of the exhaustive extruded search. *)
Definition body_column (f : Function) (c : Z) (s : state) : state * bool :=
  let s := for_loop (body_layer c) (range (n_layers f)) s in
  if negb (cell s =? -1) then
    (set_cell (encode c (cell s) (n_layers f)) s, true)
  else (s, false).

(** The state after the declarations of lines 17-27, on the buffers the
    caller passes. *)
Definition initial (temp found : RefCoords) (found_dist : double) : state :=
  mkState (-1) DBL_MAX (-0.5)%float temp found found_dist Unallocated [] [].

(** The body of [locate_cell] with [err] holding the given status when
    line 46 tests it.  The result is the value returned and the final
    state. *)
Definition locate_cell_err (err : RTError) (f : Function)
    (temp found : RefCoords) (found_dist : double) : Z * state :=
  let s := initial temp found found_dist in
  match sidx2 f with
  | Some result =>
      (* lines 41-43: query, malloc, fill *)
      let s := set_ids (Live result) s in
      if negb (RTError_eqb err RT_None) then
        (-1, fputs index_error_message s)
      else
        let s :=
          if extruded f =? 0 then for_loop body_indexed_flat result s
          else for_loop (body_indexed_xtr f) result s in
        let s := set_ids Released s in
        (cell s, s)
  | None =>
      let s :=
        if extruded f =? 0 then for_loop body_flat (range (n_cols f)) s
        else for_loop (body_column f) (range (n_cols f)) s in
      (cell s, s)
  end.

(** [locate_cell]: line 17 initialises [err] to [RT_None] and no statement
    assigns it afterwards. *)
Definition locate_cell (f : Function) (temp found : RefCoords)
    (found_dist : double) : Z * state :=
  locate_cell_err RT_None f temp found found_dist.

(* ----------------------------------------------------------------- *)
(** *** The candidates of a search *)

(** What a containment test writes and returns. *)
Definition outcome (k : call) : RefCoords * double :=
  match k with
  | Flat c => try_candidate c
  | Xtr c l => try_candidate_xtr c l
  end.

Definition coords (k : call) : RefCoords := fst (outcome k).
Definition dist (k : call) : double := snd (outcome k).

(** A candidate of a loop: the test the loop invokes on it, and the value
    the loop stores in [cell] when it accepts it. *)
Definition candidate : Type := (call * Z)%type.

Definition visit (p : candidate) (s : state) : state * bool :=
  examine (fst p) (outcome (fst p)) (snd p) s.

(** A candidate loop, over the list of its candidates. *)
Definition scan (l : list candidate) (s : state) : state := for_loop visit l s.

Definition indexed_flat_candidate (id : Z) : candidate :=
  (Flat (id - 1), id - 1).

Definition indexed_xtr_candidate (f : Function) (id : Z) : candidate :=
  let '(c, l) := decode id (n_layers f) in (Xtr c l, id).

Definition flat_candidate (c : Z) : candidate := (Flat c, c).

(** Inside a column the loop stores the layer; line 145 turns it into the
    cell id once the column is done. *)
Definition layer_candidate (c l : Z) : candidate := (Xtr c l, l).

Definition xtr_candidate (f : Function) (c l : Z) : candidate :=
  (Xtr c l, encode c l (n_layers f)).

(** The candidate is no exact hit. *)
Definition outside (p : candidate) : Prop := (dist (fst p) <=? 0)%float = false.

(** The state in which the candidate loop starts, and what follows it. *)
Definition start (f : Function) (temp found : RefCoords) (found_dist : double)
  : state :=
  match sidx2 f with
  | Some result => set_ids (Live result) (initial temp found found_dist)
  | None => initial temp found found_dist
  end.

Definition finish (f : Function) (s : state) : state :=
  match sidx2 f with
  | Some _ => set_ids Released s
  | None => s
  end.

(** The outer loop of the exhaustive extruded search. *)
Definition columns (f : Function) (cols : list Z) (s : state)
  : state :=
  for_loop (body_column f) cols s.

(** The candidates of the inner loop in column [c]. *)
Definition layers (f : Function) (c : Z) : list candidate :=
  map (layer_candidate c) (range (n_layers f)).

End LocateCell.

Arguments cell {RefCoords} _.
Arguments ref_cell_dist_l1 {RefCoords} _.
Arguments current_ref_cell_dist_l1 {RefCoords} _.
Arguments temp_ref_coords {RefCoords} _.
Arguments found_ref_coords {RefCoords} _.
Arguments found_ref_cell_dist_l1 {RefCoords} _.
Arguments ids {RefCoords} _.
Arguments stderr {RefCoords} _.
Arguments calls {RefCoords} _.
Arguments mkState {RefCoords}.
Arguments set_cell {RefCoords}.
Arguments set_ref_cell_dist_l1 {RefCoords}.
Arguments set_ids {RefCoords}.
Arguments fputs {RefCoords}.
Arguments invoke {RefCoords}.
Arguments accept {RefCoords}.
Arguments examine {RefCoords}.
Arguments for_loop {RefCoords A}.
Arguments body_indexed_flat {RefCoords}.
Arguments body_indexed_xtr {RefCoords}.
Arguments body_flat {RefCoords}.
Arguments body_layer {RefCoords}.
Arguments body_column {RefCoords}.
Arguments initial {RefCoords}.
Arguments locate_cell_err {RefCoords}.
Arguments locate_cell {RefCoords}.
Arguments outcome {RefCoords}.
Arguments coords {RefCoords}.
Arguments dist {RefCoords}.
Arguments visit {RefCoords}.
Arguments scan {RefCoords}.
Arguments outside {RefCoords}.
Arguments start {RefCoords}.
Arguments finish {RefCoords}.
Arguments columns {RefCoords}.

(** The four candidate-generation variants. *)
Inductive variant : Type :=
| IndexedFlat | IndexedLayered | ExhaustiveFlat | ExhaustiveLayered.

Definition variant_of (f : Function) : variant :=
  match sidx2 f with
  | Some _ => if extruded f =? 0 then IndexedFlat else IndexedLayered
  | None => if extruded f =? 0 then ExhaustiveFlat else ExhaustiveLayered
  end.

(** The candidates of a search in iteration order, each with the cell id
    [locate_cell] returns for it. *)
Definition candidates (f : Function) : list candidate :=
  match sidx2 f with
  | Some result =>
      if extruded f =? 0 then map indexed_flat_candidate result
      else map (indexed_xtr_candidate f) result
  | None =>
      if extruded f =? 0 then map flat_candidate (range (n_cols f))
      else flat_map (fun c => map (xtr_candidate f c) (range (n_layers f)))
             (range (n_cols f))
  end.

Definition column_of (k : call) : Z :=
  match k with
  | Flat c => c
  | Xtr c _ => c
  end.

(* ----------------------------------------------------------------- *)
(** *** Which candidates a search can accept *)

Section Acceptance.

Context {RefCoords : Type}.
Variable tolerance : double.
Variable try_candidate : Z -> RefCoords * double.
Variable try_candidate_xtr : Z -> Z -> RefCoords * double.

(** The test of lines 54, 79, 103 and 126. *)
Definition exact_hit (p : candidate) : bool :=
  (dist try_candidate try_candidate_xtr (fst p) <=? 0)%float.

(** The tests of lines 61 and 64 (and their copies) for a candidate met
    while the best distance still is the [DBL_MAX] of line 26. *)
Definition under_tolerance (p : candidate) : bool :=
  (dist try_candidate try_candidate_xtr (fst p) <? DBL_MAX)%float &&
  (dist try_candidate try_candidate_xtr (fst p) <? tolerance)%float.

Definition acceptable (p : candidate) : bool :=
  exact_hit p || under_tolerance p.

(** The distance of the candidate is a NaN. *)
Definition undefined (p : candidate) : bool :=
  is_nan (dist try_candidate try_candidate_xtr (fst p)).

End Acceptance.

(** The distances a search accepts from a candidate met while the best
    distance still is the [DBL_MAX] of line 26: the tests of lines 54, 61
    and 64 (and their copies) on the distance itself. *)
Definition acceptable_distance (tolerance d : double) : bool :=
  (d <=? 0)%float || ((d <? DBL_MAX)%float && (d <? tolerance)%float).

(** The index of a function replaced by one that yields other ids. *)
Definition with_index (f : Function) (result : list Z) : Function :=
  mkFunction (n_cols f) (n_layers f) (extruded f) (Some result).

(** The candidate an indexed search makes of an index id (lines 52 and
    75-77). *)
Definition index_candidate (f : Function) (id : Z) : candidate :=
  if extruded f =? 0 then indexed_flat_candidate id
  else indexed_xtr_candidate f id.

(** The number of cells an exhaustive search enumerates. *)
Definition cell_count (f : Function) : Z :=
  if extruded f =? 0 then n_cols f else n_cols f * n_layers f.

(* ================================================================= *)
(** ** The statements of the specification that need amending *)

Section Statements.

Context {RefCoords : Type}.
Variable tolerance : double.
Variable try_candidate : Z -> RefCoords * double.
Variable try_candidate_xtr : Z -> Z -> RefCoords * double.
Variables (f : Function) (temp found : RefCoords) (found_dist : double).

Local Abbreviation dist_of := (dist try_candidate try_candidate_xtr).
Local Abbreviation coords_of := (coords try_candidate try_candidate_xtr).

(** "If some candidate's containment test returns a distance [d <= 0], then
    [locate_cell] returns the first such candidate in iteration order,
    records its distance and copies its reference coordinates into the
    output buffer, and invokes the containment test on no candidate after
    it", in any of the four variants. *)
Definition spec_first_exact_hit : Prop :=
  forall pre p post,
    candidates f = pre ++ p :: post ->
    (forall q, In q pre -> (dist_of (fst q) <=? 0)%float = false) ->
    (dist_of (fst p) <=? 0)%float = true ->
    let r := locate_cell tolerance try_candidate try_candidate_xtr f temp found found_dist in
    fst r = snd p /\
    found_ref_coords (snd r) = coords_of (fst p) /\
    found_ref_cell_dist_l1 (snd r) = dist_of (fst p) /\
    calls (snd r) = map fst pre ++ [fst p].


End Statements.

(** "For some search in which the minimum distance over all candidates is
    strictly positive and exactly equal to tolerance, [locate_cell] accepts
    that candidate (returns its cell id rather than [-1])." *)
Definition spec_accepts_at_tolerance : Prop :=
  exists (RefCoords : Type) (tolerance : double)
         (try_candidate : Z -> RefCoords * double)
         (try_candidate_xtr : Z -> Z -> RefCoords * double)
         (f : Function) (temp found : RefCoords) (found_dist : double)
         (p : candidate),
    In p (candidates f) /\
    (forall q, In q (candidates f) ->
       (dist try_candidate try_candidate_xtr (fst p)
        <=? dist try_candidate try_candidate_xtr (fst q))%float = true) /\
    (0 <? dist try_candidate try_candidate_xtr (fst p))%float = true /\
    (dist try_candidate try_candidate_xtr (fst p) =? tolerance)%float = true /\
    fst (locate_cell tolerance try_candidate try_candidate_xtr
           f temp found found_dist) = snd p /\
    snd p <> -1.

(* ================================================================= *)
(** ** Sample meshes *)

Module Samples.

(** In the samples a containment test fills the scratch record with the
    call that wrote it. *)
Definition Tag : Type := call.

(** A flat test given by the distances of cells 0, 1, 2, ... *)
Definition flat_test (ds : list double) (c : Z) : Tag * double :=
  (Flat c, nth (Z.to_nat c) ds DBL_MAX).

(** An extruded test given by the distances of each column's layers. *)
Definition xtr_test (dss : list (list double)) (c l : Z) : Tag * double :=
  (Xtr c l, nth (Z.to_nat l) (nth (Z.to_nat c) dss []) DBL_MAX).

Definition no_flat_test (c : Z) : Tag * double := (Flat c, DBL_MAX).
Definition no_xtr_test (c l : Z) : Tag * double := (Xtr c l, DBL_MAX).

Definition exhaustive_flat (n : Z) : Function := mkFunction n 1 0 None.
Definition exhaustive_xtr (ncols nlayers : Z) : Function :=
  mkFunction ncols nlayers 1 None.
Definition indexed_flat (n : Z) (result : list Z) : Function :=
  mkFunction n 1 0 (Some result).
Definition indexed_xtr (ncols nlayers : Z) (result : list Z) : Function :=
  mkFunction ncols nlayers 1 (Some result).

(** The caller's buffers before the call. *)
Definition temp0 : Tag := Flat (-7).
Definition found0 : Tag := Flat (-9).
Definition dist0 : double := 42%float.

Definition tol : double := 0.25%float.

(** Two columns of three layers, the point inside column 1, layer 2. *)
Definition inside_column_1 : Z -> Z -> Tag * double :=
  xtr_test [[1; 1; 1]; [1; 0.125; -1]]%float.

(** Two columns of one layer: the point is inside column 1 and within
    tolerance of column 0. *)
Definition near_0_inside_1 : Z -> Z -> Tag * double :=
  xtr_test [[0.125]; [-1]]%float.



(** Flat meshes with the point outside every cell. *)
Definition far : Z -> Tag * double := flat_test [2; 0.5]%float.
Definition at_tolerance : Z -> Tag * double := flat_test [2; 0.25]%float.
Definition near_cell_2 : Z -> Tag * double := flat_test [2; 2; 0.125]%float.

(** Flat meshes: the point inside cell 1 and within tolerance of cell 0;
    the point within tolerance of cell 0 only; the test failing with a NaN
    on cell 0. *)
Definition inside_cell_1 : Z -> Tag * double := flat_test [0.125; -1; 2]%float.
Definition near_cell_0 : Z -> Tag * double := flat_test [0.125; 2]%float.
Definition undefined_on_cell_0 : Z -> Tag * double := flat_test [nan; 0.125]%float.

(** Flat mesh: the point nearest to cell 1, within tolerance of it, with
    a farther cell before it and two farther cells after it, the last one
    within tolerance too. *)
Definition near_cell_1 : Z -> Tag * double :=
  flat_test [0.5; 0.125; 2; 0.1875]%float.

End Samples.

(* ================================================================= *)
(** ** Facts on the order of doubles *)

Module DoubleFacts.
Import DoubleOrder.

Lemma SFltb_keys (a b : spec_float) :
  SFltb a b =
  match sf_key a, sf_key b with
  | Some ka, Some kb => key_ltb ka kb
  | _, _ => false
  end.
Proof.
  unfold SFltb.
  destruct a as [[]|[]| |[] m e], b as [[]|[]| |[] m' e']; try reflexivity;
    cbn [SFcompare sf_key key_ltb];
    change (Pos.compare_cont Eq m m') with (Pos.compare m m');
    destruct (Z.compare_spec e e'); destruct (Pos.compare_spec m m');
    cbn [CompOpp]; lia.
Qed.

Lemma SFleb_keys (a b : spec_float) :
  SFleb a b =
  match sf_key a, sf_key b with
  | Some ka, Some kb => key_leb ka kb
  | _, _ => false
  end.
Proof.
  unfold SFleb.
  destruct a as [[]|[]| |[] m e], b as [[]|[]| |[] m' e']; try reflexivity;
    cbn [SFcompare sf_key key_leb];
    change (Pos.compare_cont Eq m m') with (Pos.compare m m');
    destruct (Z.compare_spec e e'); destruct (Pos.compare_spec m m');
    cbn [CompOpp]; lia.
Qed.

Lemma SFeqb_keys (a b : spec_float) :
  SFeqb a b =
  match sf_key a, sf_key b with
  | Some ka, Some kb => key_eqb ka kb
  | _, _ => false
  end.
Proof.
  unfold SFeqb.
  destruct a as [[]|[]| |[] m e], b as [[]|[]| |[] m' e']; try reflexivity;
    cbn [SFcompare sf_key key_eqb];
    change (Pos.compare_cont Eq m m') with (Pos.compare m m');
    destruct (Z.compare_spec e e'); destruct (Pos.compare_spec m m');
    cbn [CompOpp]; lia.
Qed.

Lemma eqb_keys (x y : double) : (x =? y)%float = cmp_keys key_eqb x y.
Proof. rewrite eqb_spec. apply SFeqb_keys. Qed.

Lemma ltb_keys (x y : double) : (x <? y)%float = cmp_keys key_ltb x y.
Proof. rewrite ltb_spec. apply SFltb_keys. Qed.

Lemma leb_keys (x y : double) : (x <=? y)%float = cmp_keys key_leb x y.
Proof. rewrite leb_spec. apply SFleb_keys. Qed.

Lemma key_zero : key 0%float = Some (0, 0, 0).
Proof. reflexivity. Qed.

Ltac keys :=
  rewrite ?ltb_keys, ?leb_keys, ?eqb_keys in *; unfold cmp_keys in *;
  rewrite ?key_zero in *;
  repeat match goal with
         | H : context [match key ?x with _ => _ end] |- _ =>
             destruct (key x) as [[[? ?] ?]|]
         | |- context [match key ?x with _ => _ end] =>
             destruct (key x) as [[[? ?] ?]|]
         end;
  cbn [key_ltb key_leb key_eqb] in *; try discriminate; try reflexivity; try lia.

Lemma ltb_leb_false (x y : double) :
  (x <? y)%float = true -> (y <=? x)%float = false.
Proof. intros H. keys. Qed.

Lemma leb_ltb_false (x y : double) :
  (x <=? y)%float = true -> (y <? x)%float = false.
Proof. intros H. keys. Qed.

Lemma ltb_trans (x y z : double) :
  (x <? y)%float = true -> (y <? z)%float = true -> (x <? z)%float = true.
Proof. intros H1 H2. keys. Qed.

Lemma ltb_leb_trans (x y z : double) :
  (x <? y)%float = true -> (y <=? z)%float = true -> (x <? z)%float = true.
Proof. intros H1 H2. keys. Qed.

Lemma leb_trans (x y z : double) :
  (x <=? y)%float = true -> (y <=? z)%float = true -> (x <=? z)%float = true.
Proof. intros H1 H2. keys. Qed.


(** Equal doubles compare alike. *)
Lemma ltb_eqb_trans (x y z : double) :
  (x <? y)%float = true -> (y =? z)%float = true -> (x <? z)%float = true.
Proof. intros H1 H2. keys. Qed.

Lemma eqb_leb_trans (x y z : double) :
  (x =? y)%float = true -> (x <=? z)%float = true -> (y <=? z)%float = true.
Proof. intros H1 H2. keys. Qed.

(** A strictly positive distance is not an exact hit. *)
Lemma positive_not_inside (d : double) :
  (0 <? d)%float = true -> (d <=? 0)%float = false.
Proof. apply ltb_leb_false. Qed.

End DoubleFacts.

(* ================================================================= *)
(** ** Facts on loop counters *)

Lemma range_bounds (n x : Z) : In x (range n) <-> 0 <= x < n.
Proof.
  unfold range. rewrite in_map_iff. split.
  - intros [k [<- Hk]]. apply in_seq in Hk. lia.
  - intros H. exists (Z.to_nat x). split; [lia|]. apply in_seq. lia.
Qed.

Lemma range_NoDup (n : Z) : NoDup (range n).
Proof.
  unfold range. apply Injective_map_NoDup.
  - intros a b. lia.
  - apply seq_NoDup.
Qed.

(** Where a concatenation of blocks is cut, it is cut inside one block. *)
Lemma flat_map_split {A B : Type} (g : A -> list B) (xs : list A)
    (pre post : list B) (p : B) :
  flat_map g xs = pre ++ p :: post ->
  exists xs1 x xs2 l1 l2,
    xs = xs1 ++ x :: xs2 /\ g x = l1 ++ p :: l2 /\
    pre = flat_map g xs1 ++ l1 /\ post = l2 ++ flat_map g xs2.
Proof.
  revert pre. induction xs as [|x xs IH]; intros pre H; cbn in H.
  - destruct pre; discriminate.
  - apply app_eq_app in H. destruct H as [l [[H1 H2]|[H1 H2]]].
    + destruct l as [|b l].
      * rewrite app_nil_r in H1. cbn in H2.
        destruct (IH [] (eq_sym H2)) as (xs1 & y & xs2 & l1 & l2 & E1 & E2 & E3 & E4).
        exists (x :: xs1), y, xs2, l1, l2.
        repeat split; [rewrite E1; reflexivity | exact E2 | | exact E4].
        cbn. rewrite <- app_assoc, <- E3, app_nil_r. symmetry. exact H1.
      * cbn in H2. injection H2 as E1 E2.
        exists [], x, xs, pre, l. cbn.
        repeat split; [rewrite H1, E1; reflexivity | exact E2].
    + destruct (IH l H2) as (xs1 & y & xs2 & l1 & l2 & E1 & E2 & E3 & E4).
      exists (x :: xs1), y, xs2, l1, l2.
      repeat split; [rewrite E1; reflexivity | exact E2 | | exact E4].
      cbn. rewrite <- app_assoc, <- E3. exact H1.
Qed.

(* ================================================================= *)
(** ** One candidate loop *)

Section SearchFacts.

Context {RefCoords : Type}.
Variable tolerance : double.
Variable try_candidate : Z -> RefCoords * double.
Variable try_candidate_xtr : Z -> Z -> RefCoords * double.

Local Abbreviation visit' := (visit tolerance try_candidate try_candidate_xtr).
Local Abbreviation scan' := (scan tolerance try_candidate try_candidate_xtr).
Local Abbreviation outcome' := (outcome try_candidate try_candidate_xtr).
Local Abbreviation dist' := (dist try_candidate try_candidate_xtr).
Local Abbreviation coords' := (coords try_candidate try_candidate_xtr).
Local Abbreviation outside' := (outside try_candidate try_candidate_xtr).
Local Abbreviation columns' := (columns tolerance try_candidate_xtr).

Implicit Types (s : state RefCoords) (p q : candidate) (temp found : RefCoords).

Ltac visit_cases :=
  unfold visit, examine, dist, coords in *;
  cbn [invoke accept set_ref_cell_dist_l1 cell ref_cell_dist_l1
       current_ref_cell_dist_l1 temp_ref_coords found_ref_coords
       found_ref_cell_dist_l1 ids stderr calls fst snd] in *.

Lemma visit_break p s : snd (visit' p s) = (dist' (fst p) <=? 0)%float.
Proof.
  visit_cases. destruct (_ <=? 0)%float; [reflexivity|].
  destruct (_ <? _)%float; [|reflexivity].
  destruct (_ <? _)%float; reflexivity.
Qed.

Lemma visit_frame p s :
  ids (fst (visit' p s)) = ids s /\ stderr (fst (visit' p s)) = stderr s /\
  calls (fst (visit' p s)) = calls s ++ [fst p].
Proof.
  visit_cases. destruct (_ <=? 0)%float; [cbn; auto|].
  destruct (_ <? _)%float; [|cbn; auto].
  destruct (_ <? _)%float; cbn; auto.
Qed.

Lemma visit_exact p s :
  (dist' (fst p) <=? 0)%float = true ->
  cell (fst (visit' p s)) = snd p /\
  found_ref_coords (fst (visit' p s)) = coords' (fst p) /\
  found_ref_cell_dist_l1 (fst (visit' p s)) = dist' (fst p).
Proof. visit_cases. intros ->. cbn. auto. Qed.

Lemma visit_unaccepted p s :
  outside' p -> (dist' (fst p) <? tolerance)%float = false ->
  cell (fst (visit' p s)) = cell s /\
  found_ref_coords (fst (visit' p s)) = found_ref_coords s /\
  found_ref_cell_dist_l1 (fst (visit' p s)) = found_ref_cell_dist_l1 s.
Proof.
  unfold outside'. visit_cases. intros -> H. rewrite H.
  destruct (_ <? ref_cell_dist_l1 s)%float; cbn; auto.
Qed.

Lemma visit_closer p s :
  outside' p -> (dist' (fst p) <? ref_cell_dist_l1 s)%float = true ->
  (dist' (fst p) <? tolerance)%float = true ->
  cell (fst (visit' p s)) = snd p /\
  found_ref_coords (fst (visit' p s)) = coords' (fst p) /\
  found_ref_cell_dist_l1 (fst (visit' p s)) = dist' (fst p) /\
  ref_cell_dist_l1 (fst (visit' p s)) = dist' (fst p).
Proof. unfold outside'. visit_cases. intros -> -> ->. cbn. auto. Qed.

Lemma visit_not_closer p s :
  outside' p -> (dist' (fst p) <? ref_cell_dist_l1 s)%float = false ->
  cell (fst (visit' p s)) = cell s /\
  found_ref_coords (fst (visit' p s)) = found_ref_coords s /\
  found_ref_cell_dist_l1 (fst (visit' p s)) = found_ref_cell_dist_l1 s /\
  ref_cell_dist_l1 (fst (visit' p s)) = ref_cell_dist_l1 s.
Proof. unfold outside'. visit_cases. intros -> ->. cbn. auto. Qed.

(** The best distance after a candidate is the old one or the candidate's. *)
Lemma visit_best p s :
  ref_cell_dist_l1 (fst (visit' p s)) = ref_cell_dist_l1 s \/
  ref_cell_dist_l1 (fst (visit' p s)) = dist' (fst p).
Proof.
  visit_cases. destruct (_ <=? 0)%float; [cbn; auto|].
  destruct (_ <? _)%float; [|cbn; auto].
  destruct (_ <? _)%float; cbn; auto.
Qed.

(** Once the best distance is below the tolerance it stays below it, and
    every candidate closer than it is under tolerance too: after a
    tentative acceptance, which leaves the accepted distance as best
    distance, no candidate is closer without being under tolerance. *)
Lemma visit_best_below_tolerance p s :
  (ref_cell_dist_l1 s <? tolerance)%float = true ->
  (ref_cell_dist_l1 (fst (visit' p s)) <? tolerance)%float = true /\
  ((dist' (fst p) <? ref_cell_dist_l1 s)%float = true ->
   (dist' (fst p) <? tolerance)%float = true).
Proof.
  intros H.
  assert (Hd : (dist' (fst p) <? ref_cell_dist_l1 s)%float = true ->
               (dist' (fst p) <? tolerance)%float = true)
    by (intros Hd; apply (DoubleFacts.ltb_trans _ _ _ Hd H)).
  split; [|exact Hd]. revert Hd. visit_cases.
  destruct (_ <=? 0)%float; [cbn; auto|].
  destruct (_ <? ref_cell_dist_l1 s)%float; [|cbn; auto].
  intros Hd. rewrite (Hd eq_refl). cbn. auto.
Qed.

(** What a candidate leaves in the result: nothing, or itself. *)
Lemma visit_result p s :
  (cell (fst (visit' p s)) = cell s /\
   found_ref_coords (fst (visit' p s)) = found_ref_coords s /\
   found_ref_cell_dist_l1 (fst (visit' p s)) = found_ref_cell_dist_l1 s) \/
  (cell (fst (visit' p s)) = snd p /\
   found_ref_coords (fst (visit' p s)) = coords' (fst p) /\
   found_ref_cell_dist_l1 (fst (visit' p s)) = dist' (fst p)).
Proof.
  visit_cases. destruct (_ <=? 0)%float; [cbn; auto|].
  destruct (_ <? _)%float; [|cbn; auto].
  destruct (_ <? _)%float; cbn; auto.
Qed.

Lemma scan_nil s : scan' [] s = s.
Proof. reflexivity. Qed.

Lemma scan_cons p l s :
  scan' (p :: l) s =
  if (dist' (fst p) <=? 0)%float then fst (visit' p s) else scan' l (fst (visit' p s)).
Proof.
  unfold scan. cbn [for_loop]. rewrite <- (visit_break p s).
  destruct (visit' p s) as [s' b]. reflexivity.
Qed.

Lemma scan_outside_app pre rest s :
  (forall q, In q pre -> outside' q) ->
  scan' (pre ++ rest) s = scan' rest (scan' pre s).
Proof.
  revert s. induction pre as [|p pre IH]; intros s H; [reflexivity|].
  cbn [app]. rewrite !scan_cons. rewrite (H p (or_introl eq_refl)).
  apply IH. intros q Hq. apply H. right. exact Hq.
Qed.

Lemma scan_outside_calls l s :
  (forall q, In q l -> outside' q) ->
  calls (scan' l s) = calls s ++ map fst l.
Proof.
  revert s. induction l as [|p l IH]; intros s H.
  - cbn. rewrite app_nil_r. reflexivity.
  - rewrite scan_cons, (H p (or_introl eq_refl)), IH.
    + destruct (visit_frame p s) as (_ & _ & ->). rewrite <- app_assoc. reflexivity.
    + intros q Hq. apply H. right. exact Hq.
Qed.

Lemma scan_frame l s : ids (scan' l s) = ids s /\ stderr (scan' l s) = stderr s.
Proof.
  revert s. induction l as [|p l IH]; intros s; [auto|].
  rewrite scan_cons. destruct (visit_frame p s) as (Hi & He & _).
  destruct (_ <=? 0)%float; [auto|].
  destruct (IH (fst (visit' p s))) as [-> ->]. auto.
Qed.

(** The tests a loop invokes are those of an initial segment of its
    candidates, in order. *)
Lemma scan_calls l s :
  exists n, calls (scan' l s) = calls s ++ map fst (firstn n l).
Proof.
  revert s. induction l as [|p l IH]; intros s.
  - exists 0%nat. cbn. rewrite app_nil_r. reflexivity.
  - rewrite scan_cons. destruct (visit_frame p s) as (_ & _ & Hc).
    destruct (_ <=? 0)%float.
    + exists 1%nat. rewrite Hc. reflexivity.
    + destruct (IH (fst (visit' p s))) as [n Hn]. exists (S n).
      rewrite Hn, Hc, <- app_assoc. reflexivity.
Qed.

(** The first exact hit of a loop ends it and is its result. *)
Lemma scan_exact pre p post s :
  (forall q, In q pre -> outside' q) ->
  (dist' (fst p) <=? 0)%float = true ->
  cell (scan' (pre ++ p :: post) s) = snd p /\
  found_ref_coords (scan' (pre ++ p :: post) s) = coords' (fst p) /\
  found_ref_cell_dist_l1 (scan' (pre ++ p :: post) s) = dist' (fst p) /\
  calls (scan' (pre ++ p :: post) s) = calls s ++ map fst pre ++ [fst p].
Proof.
  intros Hpre Hp. rewrite scan_outside_app by exact Hpre.
  rewrite scan_cons, Hp.
  destruct (visit_exact p (scan' pre s) Hp) as (-> & -> & ->).
  destruct (visit_frame p (scan' pre s)) as (_ & _ & ->).
  rewrite scan_outside_calls by exact Hpre. rewrite app_assoc. auto.
Qed.

(** Candidates that are neither exact hits nor under tolerance leave the
    result as it is, and all of them are tested. *)
Lemma scan_unaccepted l s :
  (forall q, In q l -> outside' q /\ (dist' (fst q) <? tolerance)%float = false) ->
  cell (scan' l s) = cell s /\
  found_ref_coords (scan' l s) = found_ref_coords s /\
  found_ref_cell_dist_l1 (scan' l s) = found_ref_cell_dist_l1 s /\
  calls (scan' l s) = calls s ++ map fst l.
Proof.
  intros H. split; [|split; [|split]].
  4: { apply scan_outside_calls. intros q Hq. apply H, Hq. }
  all: revert s; induction l as [|p l IH]; intros s; [reflexivity|];
    destruct (H p (or_introl eq_refl)) as [Ho Ht];
    rewrite scan_cons, Ho, IH by (intros q Hq; apply H; right; exact Hq);
    apply (visit_unaccepted p s Ho Ht).
Qed.

(** A distance below the best distance and below every candidate stays
    below the best distance. *)
Lemma scan_above l s (d : double) :
  (forall q, In q l -> outside' q /\ (d <? dist' (fst q))%float = true) ->
  (d <? ref_cell_dist_l1 s)%float = true ->
  (d <? ref_cell_dist_l1 (scan' l s))%float = true.
Proof.
  revert s. induction l as [|p l IH]; intros s H Hs; [exact Hs|].
  destruct (H p (or_introl eq_refl)) as [Ho Hd].
  rewrite scan_cons, Ho. apply IH.
  - intros q Hq. apply H. right. exact Hq.
  - destruct (visit_best p s) as [-> | ->]; assumption.
Qed.



(** As long as no candidate is stored under the value [-1], a loop that
    ends with [cell] at [-1] has left the output buffers alone. *)
Lemma scan_sentinel l s (F : RefCoords) (D : double) :
  (forall q, In q l -> snd q <> -1) ->
  (cell s = -1 -> found_ref_coords s = F /\ found_ref_cell_dist_l1 s = D) ->
  cell (scan' l s) = -1 ->
  found_ref_coords (scan' l s) = F /\ found_ref_cell_dist_l1 (scan' l s) = D.
Proof.
  revert s. induction l as [|p l IH]; intros s Hid Hs; [exact Hs|].
  assert (Hv : cell (fst (visit' p s)) = -1 ->
               found_ref_coords (fst (visit' p s)) = F /\
               found_ref_cell_dist_l1 (fst (visit' p s)) = D).
  { destruct (visit_result p s) as [(-> & -> & ->)|(-> & _)]; [exact Hs|].
    intros E. destruct (Hid p (or_introl eq_refl) E). }
  rewrite scan_cons. destruct (_ <=? 0)%float; [exact Hv|].
  apply IH; [|exact Hv]. intros q Hq. apply Hid. right. exact Hq.
Qed.

(** The result of a loop is the one it started with or one of its
    candidates, with the record and the distance of that candidate. *)
Lemma scan_result l s :
  (cell (scan' l s) = cell s /\
   found_ref_coords (scan' l s) = found_ref_coords s /\
   found_ref_cell_dist_l1 (scan' l s) = found_ref_cell_dist_l1 s) \/
  (exists p, In p l /\
   cell (scan' l s) = snd p /\
   found_ref_coords (scan' l s) = coords' (fst p) /\
   found_ref_cell_dist_l1 (scan' l s) = dist' (fst p)).
Proof.
  revert s. induction l as [|p l IH]; intros s; [left; auto|].
  rewrite scan_cons.
  assert (Hin : forall q, In q l -> In q (p :: l)) by (intros; right; assumption).
  destruct (_ <=? 0)%float.
  - destruct (visit_result p s) as [H|H]; [left; exact H|].
    right. exists p. split; [left; reflexivity | exact H].
  - destruct (IH (fst (visit' p s))) as [(Hc & Hf & Hg)|(q & Hq & H)].
    + rewrite Hc, Hf, Hg.
      destruct (visit_result p s) as [H|H]; [left; exact H|].
      right. exists p. split; [left; reflexivity | exact H].
    + right. exists q. split; [apply Hin, Hq | exact H].
Qed.

(* ----------------------------------------------------------------- *)
(** *** The four loops as candidate loops *)

Lemma for_loop_map {A B : Type} (g : A -> B)
    (body : B -> state RefCoords -> state RefCoords * bool)
    (body' : A -> state RefCoords -> state RefCoords * bool) xs s :
  (forall x t, body' x t = body (g x) t) ->
  for_loop body' xs s = for_loop body (map g xs) s.
Proof.
  intros H. revert s. induction xs as [|x xs IH]; intros s; [reflexivity|].
  cbn [for_loop map]. rewrite H. destruct (body (g x) s) as [s' []]; auto.
Qed.

Lemma loop_indexed_flat result s :
  for_loop (body_indexed_flat tolerance try_candidate) result s =
  scan' (map indexed_flat_candidate result) s.
Proof. apply for_loop_map. reflexivity. Qed.

Lemma loop_indexed_xtr f result s :
  for_loop (body_indexed_xtr tolerance try_candidate_xtr f) result s =
  scan' (map (indexed_xtr_candidate f) result) s.
Proof. apply for_loop_map. reflexivity. Qed.

Lemma loop_flat cols s :
  for_loop (body_flat tolerance try_candidate) cols s =
  scan' (map flat_candidate cols) s.
Proof. apply for_loop_map. reflexivity. Qed.

Lemma loop_layer c layers s :
  for_loop (body_layer tolerance try_candidate_xtr c) layers s =
  scan' (map (layer_candidate c) layers) s.
Proof. apply for_loop_map. reflexivity. Qed.

Lemma locate_cell_single_loop f temp found found_dist :
  variant_of f <> ExhaustiveLayered ->
  locate_cell tolerance try_candidate try_candidate_xtr f temp found found_dist =
  (cell (scan' (candidates f) (start f temp found found_dist)),
   finish f (scan' (candidates f) (start f temp found found_dist))).
Proof.
  unfold variant_of, locate_cell, locate_cell_err, candidates, start, finish.
  cbn [RTError_eqb negb].
  destruct (sidx2 f) as [result|]; destruct (extruded f =? 0); intros H;
    try congruence;
    rewrite ?loop_indexed_flat, ?loop_indexed_xtr, ?loop_flat; reflexivity.
Qed.

Lemma locate_cell_columns f temp found found_dist :
  variant_of f = ExhaustiveLayered ->
  locate_cell tolerance try_candidate try_candidate_xtr f temp found found_dist =
  (cell (columns' f (range (n_cols f)) (initial temp found found_dist)),
   columns' f (range (n_cols f)) (initial temp found found_dist)).
Proof.
  unfold variant_of, locate_cell, locate_cell_err, columns'.
  destruct (sidx2 f) as [result|]; destruct (extruded f =? 0); intros H;
    try discriminate; reflexivity.
Qed.

Lemma finish_frame f s :
  cell (finish f s) = cell s /\
  found_ref_coords (finish f s) = found_ref_coords s /\
  found_ref_cell_dist_l1 (finish f s) = found_ref_cell_dist_l1 s /\
  calls (finish f s) = calls s /\ stderr (finish f s) = stderr s.
Proof. unfold finish. destruct (sidx2 f); cbn; auto. Qed.

Lemma start_frame f temp found found_dist :
  cell (start f temp found found_dist) = -1 /\
  ref_cell_dist_l1 (start f temp found found_dist) = DBL_MAX /\
  found_ref_coords (start f temp found found_dist) = found /\
  found_ref_cell_dist_l1 (start f temp found found_dist) = found_dist /\
  calls (start f temp found found_dist) = [] /\
  stderr (start f temp found found_dist) = [].
Proof. unfold start. destruct (sidx2 f); cbn; auto 10. Qed.

(* ----------------------------------------------------------------- *)
(** *** The column loop of the exhaustive extruded search *)

Lemma layers_in f c q :
  In q (layers f c) -> exists l, In l (range (n_layers f)) /\ q = layer_candidate c l.
Proof.
  unfold layers. rewrite in_map_iff. intros [l [<- Hl]]. exists l. auto.
Qed.

Lemma layers_calls f c :
  map fst (layers f c) = map (Xtr c) (range (n_layers f)).
Proof. unfold layers. rewrite map_map. reflexivity. Qed.

Lemma columns_cons f c cols s :
  columns' f (c :: cols) s =
  if cell (scan' (layers f c) s) =? -1
  then columns' f cols (scan' (layers f c) s)
  else set_cell (encode c (cell (scan' (layers f c) s)) (n_layers f))
         (scan' (layers f c) s).
Proof.
  unfold columns'. cbn [for_loop]. unfold body_column. rewrite loop_layer.
  fold (layers f c). destruct (cell _ =? -1); reflexivity.
Qed.

(** Columns whose layers are neither exact hits nor under tolerance are
    all searched and leave the result as it is. *)
Lemma columns_unaccepted f cols s :
  cell s = -1 ->
  (forall c l, In c cols -> In l (range (n_layers f)) ->
     (dist' (Xtr c l) <=? 0)%float = false /\
     (dist' (Xtr c l) <? tolerance)%float = false) ->
  cell (columns' f cols s) = -1 /\
  found_ref_coords (columns' f cols s) = found_ref_coords s /\
  found_ref_cell_dist_l1 (columns' f cols s) = found_ref_cell_dist_l1 s /\
  calls (columns' f cols s) =
    calls s ++ flat_map (fun c => map (Xtr c) (range (n_layers f))) cols.
Proof.
  revert s. induction cols as [|c cols IH]; intros s Hs H.
  - cbn. rewrite app_nil_r. auto.
  - rewrite columns_cons.
    destruct (scan_unaccepted (layers f c) s) as (Hc & Hf & Hg & Hk).
    { intros q Hq. apply layers_in in Hq. destruct Hq as (l & Hl & ->).
      apply H; [left; reflexivity | exact Hl]. }
    rewrite Hc, Hs. cbn [Z.eqb Pos.eqb].
    destruct (IH (scan' (layers f c) s)) as (-> & -> & -> & ->).
    + rewrite Hc. exact Hs.
    + intros c' l Hc' Hl. apply H; [right; exact Hc' | exact Hl].
    + rewrite Hk, layers_calls, <- app_assoc. cbn [flat_map]. auto.
Qed.

(** A distance below the best distance and below every layer of the
    columns' stays below the best distance. *)
Lemma columns_above f cols s (d : double) :
  (forall c l, In c cols -> In l (range (n_layers f)) ->
     (dist' (Xtr c l) <=? 0)%float = false /\
     (d <? dist' (Xtr c l))%float = true) ->
  (d <? ref_cell_dist_l1 s)%float = true ->
  (d <? ref_cell_dist_l1 (columns' f cols s))%float = true.
Proof.
  revert s. induction cols as [|c cols IH]; intros s H Hs; [exact Hs|].
  rewrite columns_cons.
  assert (Hb : (d <? ref_cell_dist_l1 (scan' (layers f c) s))%float = true).
  { apply scan_above; [|exact Hs]. intros q Hq. apply layers_in in Hq.
    destruct Hq as (l & Hl & ->). apply H; [left; reflexivity | exact Hl]. }
  destruct (cell _ =? -1); [|exact Hb].
  apply IH; [|exact Hb]. intros c' l Hc' Hl. apply H; [right; exact Hc' | exact Hl].
Qed.

(** The search goes on after columns' that accept nothing ... *)
Lemma columns_app f pre rest s :
  cell s = -1 ->
  (forall c l, In c pre -> In l (range (n_layers f)) ->
     (dist' (Xtr c l) <=? 0)%float = false /\
     (dist' (Xtr c l) <? tolerance)%float = false) ->
  columns' f (pre ++ rest) s = columns' f rest (columns' f pre s).
Proof.
  revert s. induction pre as [|c pre IH]; intros s Hs H; [reflexivity|].
  cbn [app]. rewrite !columns_cons.
  destruct (scan_unaccepted (layers f c) s) as (Hc & _).
  { intros q Hq. apply layers_in in Hq. destruct Hq as (l & Hl & ->).
    apply H; [left; reflexivity | exact Hl]. }
  rewrite Hc, Hs. cbn [Z.eqb Pos.eqb]. apply IH.
  - rewrite Hc. exact Hs.
  - intros c' l Hc' Hl. apply H; [right; exact Hc' | exact Hl].
Qed.

(** ... and stops after the first column that accepts a layer. *)
Lemma columns_stop f c cols s :
  cell (scan' (layers f c) s) <> -1 ->
  columns' f (c :: cols) s =
  set_cell (encode c (cell (scan' (layers f c) s)) (n_layers f))
    (scan' (layers f c) s).
Proof.
  intros H. rewrite columns_cons.
  destruct (Z.eqb_spec (cell (scan' (layers f c) s)) (-1)); [contradiction|reflexivity].
Qed.

Lemma columns_sentinel f cols s (F : RefCoords) (D : double) :
  (forall c, In c cols -> 0 <= c) ->
  cell s = -1 -> found_ref_coords s = F -> found_ref_cell_dist_l1 s = D ->
  cell (columns' f cols s) = -1 ->
  found_ref_coords (columns' f cols s) = F /\
  found_ref_cell_dist_l1 (columns' f cols s) = D.
Proof.
  revert s. induction cols as [|c cols IH]; intros s Hcols Hs HF HD; [auto|].
  rewrite columns_cons.
  assert (Hl : forall q, In q (layers f c) -> snd q <> -1).
  { intros q Hq. apply layers_in in Hq. destruct Hq as (l & Hl & ->).
    apply range_bounds in Hl. cbn. lia. }
  destruct (Z.eqb_spec (cell (scan' (layers f c) s)) (-1)) as [E|E].
  - destruct (scan_sentinel (layers f c) s F D Hl (fun _ => conj HF HD) E).
    apply IH; auto. intros c' Hc'. apply Hcols. right. exact Hc'.
  - cbn [set_cell cell found_ref_coords found_ref_cell_dist_l1]. intros Habs.
    exfalso. destruct (scan_result (layers f c) s) as [(Hc & _)|(q & Hq & Hc & _)].
    + apply E. rewrite Hc. exact Hs.
    + apply layers_in in Hq. destruct Hq as (l & Hl' & ->).
      apply range_bounds in Hl'. rewrite Hc in Habs. cbn in Habs.
      assert (0 <= c) by (apply Hcols; left; reflexivity).
      unfold encode in Habs. nia.
Qed.

(* ----------------------------------------------------------------- *)
(** *** Whole searches *)

Lemma candidates_layered f q :
  variant_of f = ExhaustiveLayered ->
  In q (candidates f) <->
  exists c l, In c (range (n_cols f)) /\ In l (range (n_layers f)) /\
              q = xtr_candidate f c l.
Proof.
  unfold variant_of, candidates.
  destruct (sidx2 f); destruct (extruded f =? 0); try discriminate. intros _.
  rewrite in_flat_map. split.
  - intros (c & Hc & Hq). apply in_map_iff in Hq. destruct Hq as (l & <- & Hl).
    exists c, l. auto.
  - intros (c & l & Hc & Hl & ->). exists c. split; [exact Hc|].
    apply in_map. exact Hl.
Qed.

Lemma candidates_layered_calls f cols :
  map fst (flat_map (fun c => map (xtr_candidate f c) (range (n_layers f))) cols) =
  flat_map (fun c => map (Xtr c) (range (n_layers f))) cols.
Proof.
  induction cols as [|c cols IH]; [reflexivity|].
  cbn [flat_map]. rewrite map_app, map_map. f_equal. exact IH.
Qed.

Lemma candidates_layered_eq f :
  variant_of f = ExhaustiveLayered ->
  candidates f =
  flat_map (fun c => map (xtr_candidate f c) (range (n_layers f))) (range (n_cols f)).
Proof.
  unfold variant_of, candidates.
  destruct (sidx2 f); destruct (extruded f =? 0); try discriminate. reflexivity.
Qed.

(** A search none of whose candidates is an exact hit or under tolerance
    tests them all and reports nothing. *)
Lemma search_unaccepted f temp found found_dist :
  (forall q, In q (candidates f) ->
     outside' q /\ (dist' (fst q) <? tolerance)%float = false) ->
  let r := locate_cell tolerance try_candidate try_candidate_xtr f temp found found_dist in
  fst r = -1 /\ found_ref_coords (snd r) = found /\
  found_ref_cell_dist_l1 (snd r) = found_dist /\
  calls (snd r) = map fst (candidates f).
Proof.
  intros H.
  destruct (start_frame f temp found found_dist) as (Hc & _ & Hf & Hg & Hk & _).
  destruct (variant_of f) eqn:V.
  4: {
    rewrite locate_cell_columns by exact V. cbn [fst snd].
    destruct (columns_unaccepted f (range (n_cols f)) (initial temp found found_dist))
      as (E1 & E2 & E3 & E4); [reflexivity| |].
    - intros c l Hcol Hl. apply (H (xtr_candidate f c l)).
      apply candidates_layered; [exact V|]. exists c, l. auto.
    - rewrite E1, E2, E3, E4, candidates_layered_eq, candidates_layered_calls by exact V.
      auto. }
  all: rewrite locate_cell_single_loop by (rewrite V; discriminate); cbn [fst snd].
  all: destruct (scan_unaccepted (candidates f) (start f temp found found_dist) H)
        as (E1 & E2 & E3 & E4).
  all: destruct (finish_frame f (scan' (candidates f) (start f temp found found_dist)))
        as (_ & -> & -> & -> & _).
  all: rewrite E1, E2, E3, E4, Hk; auto.
Qed.

(** How a position among the candidates of the exhaustive extruded search
    reads in terms of columns' and layers. *)
Lemma candidates_layered_split f pre p post :
  variant_of f = ExhaustiveLayered ->
  candidates f = pre ++ p :: post ->
  exists cols1 c cols2 r1 l r2,
    range (n_cols f) = cols1 ++ c :: cols2 /\
    range (n_layers f) = r1 ++ l :: r2 /\
    p = xtr_candidate f c l /\
    pre = flat_map (fun c => map (xtr_candidate f c) (range (n_layers f))) cols1
          ++ map (xtr_candidate f c) r1 /\
    post = map (xtr_candidate f c) r2
          ++ flat_map (fun c => map (xtr_candidate f c) (range (n_layers f))) cols2 /\
    ~ In c cols1.
Proof.
  intros V H. rewrite candidates_layered_eq in H by exact V.
  apply flat_map_split in H.
  destruct H as (cols1 & c & cols2 & l1 & l2 & Hcols & Hc & Hpre & Hpost).
  apply map_eq_app in Hc. destruct Hc as (r1 & r2' & Hr & Hl1 & Hl2).
  apply map_eq_cons in Hl2. destruct Hl2 as (l & r2 & -> & Hp & Hr2).
  exists cols1, c, cols2, r1, l, r2. subst. repeat split; auto.
  intros Hin. pose proof (range_NoDup (n_cols f)) as Hnd. rewrite Hcols in Hnd.
  apply NoDup_remove_2 in Hnd. apply Hnd, in_or_app. left. exact Hin.
Qed.

Lemma layers_split f c r1 l r2 :
  range (n_layers f) = r1 ++ l :: r2 ->
  layers f c =
  map (layer_candidate c) r1 ++ layer_candidate c l :: map (layer_candidate c) r2.
Proof. unfold layers. intros ->. rewrite map_app. reflexivity. Qed.

(** The first exact hit is the result of the search and no candidate is
    tested after it; in the exhaustive extruded search, as long as no
    candidate of an earlier column is under tolerance. *)
Lemma search_exact f temp found found_dist pre p post :
  candidates f = pre ++ p :: post ->
  (forall q, In q pre -> outside' q) ->
  (dist' (fst p) <=? 0)%float = true ->
  (variant_of f = ExhaustiveLayered ->
   forall q, In q pre -> column_of (fst q) <> column_of (fst p) ->
             (dist' (fst q) <? tolerance)%float = false) ->
  let r := locate_cell tolerance try_candidate try_candidate_xtr f temp found found_dist in
  fst r = snd p /\ found_ref_coords (snd r) = coords' (fst p) /\
  found_ref_cell_dist_l1 (snd r) = dist' (fst p) /\
  calls (snd r) = map fst pre ++ [fst p].
Proof.
  intros Hsplit Hpre Hp Hcol. cbv zeta.
  destruct (variant_of f) eqn:V.
  4: {
    specialize (Hcol eq_refl).
    destruct (candidates_layered_split f pre p post V Hsplit)
      as (cols1 & c & cols2 & r1 & l & r2 & Hcols & Hr & -> & -> & -> & Hc).
    rewrite locate_cell_columns by exact V. cbn [fst snd]. rewrite Hcols.
    set (s0 := initial temp found found_dist).
    assert (Hquiet : forall c' l', In c' cols1 -> In l' (range (n_layers f)) ->
              (dist' (Xtr c' l') <=? 0)%float = false /\
              (dist' (Xtr c' l') <? tolerance)%float = false).
    { intros c' l' Hc' Hl'.
      assert (Hin : In (xtr_candidate f c' l')
                (flat_map (fun c => map (xtr_candidate f c) (range (n_layers f))) cols1
                 ++ map (xtr_candidate f c) r1)).
      { apply in_or_app. left. apply in_flat_map. exists c'. split; [exact Hc'|].
        apply in_map. exact Hl'. }
      split; [apply (Hpre _ Hin)|]. apply (Hcol _ Hin). cbn. congruence. }
    rewrite columns_app by (reflexivity || exact Hquiet).
    destruct (columns_unaccepted f cols1 s0 eq_refl Hquiet) as (E1 & _ & _ & E4).
    destruct (scan_exact (map (layer_candidate c) r1) (layer_candidate c l)
                (map (layer_candidate c) r2) (columns' f cols1 s0))
      as (F1 & F2 & F3 & F4).
    { intros q Hq. apply in_map_iff in Hq. destruct Hq as (l' & <- & Hl').
      apply (Hpre (xtr_candidate f c l')), in_or_app. right. apply in_map. exact Hl'. }
    { exact Hp. }
    rewrite <- (layers_split f c r1 l r2 Hr) in F1, F2, F3, F4.
    rewrite columns_stop.
    - cbn [set_cell cell found_ref_coords found_ref_cell_dist_l1 calls].
      rewrite F1, F2, F3, F4, E4. cbn [layer_candidate xtr_candidate fst snd calls s0 initial].
      repeat split.
      rewrite map_app, candidates_layered_calls, !map_map, <- !app_assoc. reflexivity.
    - rewrite F1. cbn. assert (In l (range (n_layers f))) as Hl
        by (rewrite Hr; apply in_or_app; right; left; reflexivity).
      apply range_bounds in Hl. lia. }
  all: rewrite locate_cell_single_loop by (rewrite V; discriminate); cbn [fst snd].
  all: rewrite Hsplit.
  all: destruct (scan_exact pre p post (start f temp found found_dist) Hpre Hp)
        as (E1 & E2 & E3 & E4).
  all: destruct (finish_frame f (scan' (pre ++ p :: post) (start f temp found found_dist)))
        as (_ & -> & -> & -> & _).
  all: destruct (start_frame f temp found found_dist) as (_ & _ & _ & _ & Hk & _).
  all: rewrite E1, E2, E3, E4, Hk; auto.
Qed.


(** The result of a single-loop search is [-1] with the output buffers as
    the caller left them, or a candidate with its record and its distance;
    the tests invoked are those of an initial segment of the candidates. *)
Lemma search_result f temp found found_dist :
  variant_of f <> ExhaustiveLayered ->
  let r := locate_cell tolerance try_candidate try_candidate_xtr f temp found found_dist in
  (exists n, calls (snd r) = map fst (firstn n (candidates f))) /\
  ((fst r = -1 /\ found_ref_coords (snd r) = found /\
    found_ref_cell_dist_l1 (snd r) = found_dist) \/
   (exists p, In p (candidates f) /\ fst r = snd p /\
    found_ref_coords (snd r) = coords' (fst p) /\
    found_ref_cell_dist_l1 (snd r) = dist' (fst p))).
Proof.
  intros V. cbv zeta. rewrite locate_cell_single_loop by exact V. cbn [fst snd].
  destruct (start_frame f temp found found_dist) as (Hc & _ & Hf & Hg & Hk & _).
  destruct (finish_frame f (scan' (candidates f) (start f temp found found_dist)))
    as (_ & -> & -> & -> & _).
  split.
  - destruct (scan_calls (candidates f) (start f temp found found_dist)) as [n Hn].
    exists n. rewrite Hn, Hk. reflexivity.
  - destruct (scan_result (candidates f) (start f temp found found_dist))
      as [(E1 & E2 & E3)|H].
    + left. rewrite E1, E2, E3. auto.
    + right. exact H.
Qed.

(** When no candidate is reported under the value [-1], a search that
    returns [-1] has not written to the output buffers. *)
Lemma search_sentinel f temp found found_dist :
  (forall q, In q (candidates f) -> snd q <> -1) ->
  let r := locate_cell tolerance try_candidate try_candidate_xtr f temp found found_dist in
  fst r = -1 ->
  found_ref_coords (snd r) = found /\ found_ref_cell_dist_l1 (snd r) = found_dist.
Proof.
  intros Hid. cbv zeta. destruct (variant_of f) eqn:V.
  4: {
    rewrite locate_cell_columns by exact V. cbn [fst snd].
    apply columns_sentinel; try reflexivity.
    intros c Hc. apply range_bounds in Hc. lia. }
  all: rewrite locate_cell_single_loop by (rewrite V; discriminate); cbn [fst snd].
  all: destruct (start_frame f temp found found_dist) as (Hc & _ & Hf & Hg & _).
  all: destruct (finish_frame f (scan' (candidates f) (start f temp found found_dist)))
        as (_ & -> & -> & _).
  all: apply scan_sentinel; auto.
Qed.


Lemma columns_frame f cols s :
  ids (columns' f cols s) = ids s /\ stderr (columns' f cols s) = stderr s.
Proof.
  revert s. induction cols as [|c cols IH]; intros s; [auto|].
  rewrite columns_cons. destruct (scan_frame (layers f c) s) as [Hi He].
  destruct (cell _ =? -1).
  - destruct (IH (scan' (layers f c) s)) as [-> ->]. auto.
  - cbn. auto.
Qed.

(** When line 46 finds [RT_None], the function writes nothing to [stderr],
    and the buffer of an indexed search is released. *)
Lemma locate_cell_frame f temp found found_dist :
  let r := locate_cell tolerance try_candidate try_candidate_xtr f temp found found_dist in
  stderr (snd r) = [] /\
  ids (snd r) = match sidx2 f with Some _ => Released | None => Unallocated end.
Proof.
  cbv zeta. destruct (variant_of f) eqn:V.
  4: {
    rewrite locate_cell_columns by exact V. cbn [snd].
    destruct (columns_frame f (range (n_cols f)) (initial temp found found_dist))
      as [-> ->].
    unfold variant_of in V. destruct (sidx2 f); [destruct (extruded f =? 0)|];
      try discriminate. auto. }
  all: rewrite locate_cell_single_loop by (rewrite V; discriminate); cbn [snd].
  all: destruct (finish_frame f (scan' (candidates f) (start f temp found found_dist)))
        as (_ & _ & _ & _ & ->).
  all: destruct (scan_frame (candidates f) (start f temp found found_dist)) as [Hi ->].
  all: destruct (start_frame f temp found found_dist) as (_ & _ & _ & _ & _ & ->).
  all: split; [reflexivity|].
  all: unfold finish, start in *; destruct (sidx2 f); [reflexivity|exact Hi].
Qed.

(** The column loop ends with the result it started with, or with a
    layer of one of its columns under that cell's id. *)
Lemma columns_result f cols s :
  cell s = -1 ->
  (cell (columns' f cols s) = -1 /\
   found_ref_coords (columns' f cols s) = found_ref_coords s /\
   found_ref_cell_dist_l1 (columns' f cols s) = found_ref_cell_dist_l1 s) \/
  (exists c l, In c cols /\ In l (range (n_layers f)) /\
   cell (columns' f cols s) = encode c l (n_layers f) /\
   found_ref_coords (columns' f cols s) = coords' (Xtr c l) /\
   found_ref_cell_dist_l1 (columns' f cols s) = dist' (Xtr c l)).
Proof.
  revert s. induction cols as [|c cols IH]; intros s Hs; [left; auto|].
  rewrite columns_cons.
  destruct (scan_result (layers f c) s) as [(Hc & Hf & Hg)|(q & Hq & Hc & Hf & Hg)].
  - rewrite Hc, Hs. cbn [Z.eqb Pos.eqb].
    destruct (IH (scan' (layers f c) s)) as [H|(c' & l & Hc' & H)].
    + rewrite Hc. exact Hs.
    + left. rewrite <- Hf, <- Hg. exact H.
    + right. exists c', l. split; [right; exact Hc' | exact H].
  - apply layers_in in Hq. destruct Hq as (l & Hl & ->).
    cbn [layer_candidate fst snd] in Hc, Hf, Hg.
    right. exists c, l. split; [left; reflexivity|]. split; [exact Hl|].
    apply range_bounds in Hl.
    destruct (Z.eqb_spec (cell (scan' (layers f c) s)) (-1)) as [E|E]; [lia|].
    cbn [set_cell cell found_ref_coords found_ref_cell_dist_l1].
    rewrite Hc. auto.
Qed.

(** The output buffers are written on acceptance only: after any search
    they are as the caller left them, with [-1] returned, or they hold the
    record and the distance of the candidate returned. *)
Lemma search_written f temp found found_dist :
  let r := locate_cell tolerance try_candidate try_candidate_xtr f temp found found_dist in
  (fst r = -1 /\ found_ref_coords (snd r) = found /\
   found_ref_cell_dist_l1 (snd r) = found_dist) \/
  (exists p, In p (candidates f) /\ fst r = snd p /\
   found_ref_coords (snd r) = coords' (fst p) /\
   found_ref_cell_dist_l1 (snd r) = dist' (fst p)).
Proof.
  cbv zeta. destruct (variant_of f) eqn:V.
  4: {
    rewrite locate_cell_columns by exact V. cbn [fst snd].
    destruct (columns_result f (range (n_cols f)) (initial temp found found_dist) eq_refl)
      as [H|(c & l & Hc & Hl & H)]; [left; exact H|].
    right. exists (xtr_candidate f c l). split; [|exact H].
    apply candidates_layered; [exact V|]. exists c, l. auto. }
  all: apply search_result; rewrite V; discriminate.
Qed.

End SearchFacts.

(* ================================================================= *)
(** ** Properties of [locate_cell] *)

Section Properties.

Context {RefCoords : Type}.
Variable tolerance : double.
Variable try_candidate : Z -> RefCoords * double.
Variable try_candidate_xtr : Z -> Z -> RefCoords * double.

Local Abbreviation dist' := (dist try_candidate try_candidate_xtr).
Local Abbreviation coords' := (coords try_candidate try_candidate_xtr).

(** C1, amended.  If some candidate is an exact hit (distance [<= 0]),
    [locate_cell] returns the first such candidate in iteration order with
    its distance and its reference coordinates in the output buffers, and
    invokes the containment test on no candidate after it: in the indexed
    flat, indexed extruded and exhaustive flat searches always, and in the
    exhaustive extruded search when no candidate of an earlier column is
    under tolerance.  Two cells at distance 0 are a case of it: the one
    iterated first is returned. *)
Theorem first_exact_hit_returned
    (f : Function) (temp found : RefCoords) (found_dist : double)
    (pre : list candidate) (p : candidate) (post : list candidate) :
  candidates f = pre ++ p :: post ->
  (forall q, In q pre -> (dist' (fst q) <=? 0)%float = false) ->
  (dist' (fst p) <=? 0)%float = true ->
  (variant_of f = ExhaustiveLayered ->
   forall q, In q pre -> column_of (fst q) <> column_of (fst p) ->
             (dist' (fst q) <? tolerance)%float = false) ->
  let r := locate_cell tolerance try_candidate try_candidate_xtr f temp found found_dist in
  fst r = snd p /\
  found_ref_coords (snd r) = coords' (fst p) /\
  found_ref_cell_dist_l1 (snd r) = dist' (fst p) /\
  calls (snd r) = map fst pre ++ [fst p].
Proof. apply search_exact. Qed.


(** C4.  When every candidate's distance is strictly positive and at least
    [tolerance], [locate_cell] returns [-1]. *)
Theorem all_beyond_tolerance_not_found
    (f : Function) (temp found : RefCoords) (found_dist : double) :
  (forall q, In q (candidates f) ->
     (0 <? dist' (fst q))%float = true /\
     (tolerance <=? dist' (fst q))%float = true) ->
  fst (locate_cell tolerance try_candidate try_candidate_xtr f temp found found_dist) = -1.
Proof.
  intros H.
  apply (search_unaccepted tolerance try_candidate try_candidate_xtr f temp found found_dist).
  intros q Hq. destruct (H q Hq) as [Hpos Htol]. split.
  - apply DoubleFacts.positive_not_inside, Hpos.
  - apply DoubleFacts.leb_ltb_false, Htol.
Qed.

(** C5.  The layered id codec round-trips: for a column in
    [0, columnCount) and a layer in [0, layerCount), decoding the id
    [column * layerCount + layer] by division and remainder gives back the
    column and the layer. *)
Theorem decode_encode (column layer columnCount layerCount : Z) :
  0 <= column < columnCount -> 0 <= layer < layerCount ->
  decode (encode column layer layerCount) layerCount = (column, layer).
Proof.
  intros Hc Hl. unfold decode, encode.
  assert (0 <= column * layerCount) by nia.
  rewrite Z.quot_div_nonneg, Z.rem_mod_nonneg by lia.
  f_equal; symmetry.
  - apply (Z.div_unique _ _ column layer); lia.
  - apply (Z.mod_unique _ _ column layer); lia.
Qed.

(** C7.  In the indexed variants, when line 46 finds an error status in
    [err], [locate_cell] prints the message and returns [-1]: no containment
    test is invoked, so nothing falls back to the exhaustive path, and the
    output buffers are as the caller left them.  The branch is taken only on
    an error status; as [err] keeps the [RT_None] of line 17, [locate_cell]
    itself never takes it. *)
Theorem index_error_aborts :
  (forall err f temp found found_dist,
     sidx2 f <> None -> err <> RT_None ->
     let r := locate_cell_err tolerance try_candidate try_candidate_xtr
                err f temp found found_dist in
     fst r = -1 /\ calls (snd r) = [] /\
     stderr (snd r) = [index_error_message] /\
     found_ref_coords (snd r) = found /\
     found_ref_cell_dist_l1 (snd r) = found_dist) /\
  (forall err f temp found found_dist,
     stderr (snd (locate_cell_err tolerance try_candidate try_candidate_xtr
                    err f temp found found_dist)) <> [] ->
     err <> RT_None /\ sidx2 f <> None) /\
  (forall f temp found found_dist,
     stderr (snd (locate_cell tolerance try_candidate try_candidate_xtr
                    f temp found found_dist)) = []).
Proof.
  assert (Hnone : forall f temp found found_dist,
    stderr (snd (locate_cell tolerance try_candidate try_candidate_xtr
                   f temp found found_dist)) = []).
  { intros. apply (locate_cell_frame tolerance try_candidate try_candidate_xtr). }
  split; [|split; [|exact Hnone]].
  - intros err f temp found found_dist Hidx Herr. unfold locate_cell_err.
    destruct (sidx2 f) as [result|]; [|congruence].
    destruct err; try congruence; cbn; auto.
  - intros err f temp found found_dist H.
    specialize (Hnone f temp found found_dist). unfold locate_cell in Hnone.
    split.
    + intros ->. apply H, Hnone.
    + intros Hs. apply H. unfold locate_cell_err in *. rewrite Hs in *. exact Hnone.
Qed.

(** C8, amended.  When the nearest candidate lies at a strictly positive
    distance equal to [tolerance], no candidate is accepted: [locate_cell]
    returns [-1] and leaves the output buffers alone.  The tolerance is an
    exclusive bound: only distances strictly below it are accepted. *)
Theorem nearest_at_tolerance_not_found
    (f : Function) (temp found : RefCoords) (found_dist : double) (p : candidate) :
  In p (candidates f) ->
  (forall q, In q (candidates f) -> (dist' (fst p) <=? dist' (fst q))%float = true) ->
  (0 <? dist' (fst p))%float = true ->
  (dist' (fst p) =? tolerance)%float = true ->
  let r := locate_cell tolerance try_candidate try_candidate_xtr f temp found found_dist in
  fst r = -1 /\
  found_ref_coords (snd r) = found /\
  found_ref_cell_dist_l1 (snd r) = found_dist.
Proof.
  intros Hp Hmin Hpos Heq.
  destruct (search_unaccepted tolerance try_candidate try_candidate_xtr
              f temp found found_dist) as (E1 & E2 & E3 & _); [|auto].
  intros q Hq. split.
  - apply DoubleFacts.positive_not_inside.
    apply (DoubleFacts.ltb_leb_trans _ _ _ Hpos (Hmin q Hq)).
  - apply DoubleFacts.leb_ltb_false.
    apply (DoubleFacts.eqb_leb_trans _ _ _ Heq (Hmin q Hq)).
Qed.

(** C9.  In the indexed variants the candidate-id buffer is released
    whenever [locate_cell] returns: after an exact hit, after a search that
    ends with a candidate accepted under tolerance and after a search that
    finds nothing.  These are all its returns: as [err] keeps the [RT_None]
    of line 17, no call leaves through the return of line 48, which comes
    before the release, and nothing is printed. *)
Theorem ids_released
    (f : Function) (result : list Z) (temp found : RefCoords) (found_dist : double) :
  sidx2 f = Some result ->
  let r := locate_cell tolerance try_candidate try_candidate_xtr f temp found found_dist in
  ids (snd r) = Released /\ stderr (snd r) = [].
Proof.
  intros H. cbv zeta.
  destruct (locate_cell_frame tolerance try_candidate try_candidate_xtr
              f temp found found_dist) as [He Hi].
  rewrite H in Hi. split; [exact Hi | exact He].
Qed.

(** C10.  The output buffers are written on acceptance only: after any
    search [found_ref_coords] and [found_ref_cell_dist_l1] are as the caller
    passed them, with [-1] returned, or they hold the record and the
    distance of the candidate returned.  Cell ids are not negative, so no
    candidate is reported as [-1]; then a search in which [locate_cell]
    returns [-1] has accepted nothing and leaves both buffers as the caller
    passed them. *)
Theorem not_found_leaves_outputs
    (f : Function) (temp found : RefCoords) (found_dist : double) :
  let r := locate_cell tolerance try_candidate try_candidate_xtr f temp found found_dist in
  ((fst r = -1 /\ found_ref_coords (snd r) = found /\
    found_ref_cell_dist_l1 (snd r) = found_dist) \/
   (exists p, In p (candidates f) /\ fst r = snd p /\
    found_ref_coords (snd r) = coords' (fst p) /\
    found_ref_cell_dist_l1 (snd r) = dist' (fst p))) /\
  ((forall q, In q (candidates f) -> 0 <= snd q) ->
   fst r = -1 ->
   found_ref_coords (snd r) = found /\
   found_ref_cell_dist_l1 (snd r) = found_dist).
Proof.
  split.
  - apply search_written.
  - intros Hid. apply search_sentinel. intros q Hq. specialize (Hid q Hq). lia.
Qed.

End Properties.

(* ================================================================= *)
(** ** The properties on the sample meshes *)

Import Samples.

Ltac each_candidate :=
  let q := fresh "q" in
  let Hq := fresh "Hq" in
  intros q Hq; vm_compute in Hq;
  repeat (destruct Hq as [<-|Hq];
          [first [ reflexivity | split; reflexivity
                 | intros; cbn in *; first [reflexivity | congruence] ]|]);
  destruct Hq.

(* ----------------------------------------------------------------- *)
(** *** The scenarios of the specification *)

(** The decimal distances of the scenarios are rounded to the nearest
    double, as a C compiler rounds them. *)
#[local] Set Warnings "-inexact-float".

(** Flat mesh, two cells, the point inside cell 1. *)
Example scenario_inside_cell_1 :
  let r := locate_cell 0.2%float (flat_test [3.0; -0.1]%float) no_xtr_test
             (exhaustive_flat 2) temp0 found0 dist0 in
  fst r = 1 /\ found_ref_coords (snd r) = Flat 1 /\
  found_ref_cell_dist_l1 (snd r) = (-0.1)%float.
Proof. vm_compute. auto. Qed.

(** Flat mesh, two cells, the point outside both by more than the
    tolerance. *)
Example scenario_outside_tolerance :
  let r := locate_cell 0.2%float (flat_test [2.0; 0.5]%float) no_xtr_test
             (exhaustive_flat 2) temp0 found0 dist0 in
  fst r = -1 /\ found_ref_coords (snd r) = found0 /\
  found_ref_cell_dist_l1 (snd r) = dist0.
Proof. vm_compute. auto. Qed.

(** Flat mesh, two cells, the point outside both and within tolerance of
    cell 1. *)
Example scenario_within_tolerance :
  let r := locate_cell 0.2%float (flat_test [2.0; 0.1]%float) no_xtr_test
             (exhaustive_flat 2) temp0 found0 dist0 in
  fst r = 1 /\ found_ref_coords (snd r) = Flat 1 /\
  found_ref_cell_dist_l1 (snd r) = 0.1%float.
Proof. vm_compute. auto. Qed.

(** Extruded mesh, two columns of three layers, exact hit at column 1,
    layer 2: cell 1 * 3 + 2. *)
Example scenario_layered_exact_hit :
  let r := locate_cell 0.2%float no_flat_test inside_column_1
             (exhaustive_xtr 2 3) temp0 found0 dist0 in
  fst r = 5 /\ found_ref_coords (snd r) = Xtr 1 2.
Proof. vm_compute. auto. Qed.

(** The same exact hit found through an index that yields the ids 4, 5, 3:
    the tentative acceptance of id 4 (column 1, layer 1) is overwritten. *)
Example scenario_layered_indexed :
  let r := locate_cell tol no_flat_test inside_column_1
             (indexed_xtr 2 3 [4; 5; 3]) temp0 found0 dist0 in
  fst r = 5 /\ found_ref_coords (snd r) = Xtr 1 2 /\
  calls (snd r) = [Xtr 1 1; Xtr 1 2] /\ ids (snd r) = Released.
Proof. vm_compute. auto. Qed.

(** A point on the boundary shared by cells 0 and 1, both at distance 0:
    the exhaustive search returns cell 0 and does not test cell 1. *)
Example scenario_boundary_tie :
  let r := locate_cell tol (flat_test [0; 0]%float) no_xtr_test
             (exhaustive_flat 2) temp0 found0 dist0 in
  fst r = 0 /\ calls (snd r) = [Flat 0].
Proof. vm_compute. auto. Qed.

(* ----------------------------------------------------------------- *)
(** *** The properties at concrete searches *)

(** C1: the specification's statement fails on the exhaustive extruded
    search of two columns of one layer with the point inside column 1 and
    within tolerance of column 0: the first exact hit is cell 1, and
    [locate_cell] returns cell 0 without testing cell 1. *)
Lemma first_exact_hit_missed :
  ~ spec_first_exact_hit tol no_flat_test near_0_inside_1
      (exhaustive_xtr 2 1) temp0 found0 dist0.
Proof.
  intros H.
  destruct (H [(Xtr 0 0, 0)] (Xtr 1 0, 1) []) as [E _].
  - reflexivity.
  - each_candidate.
  - reflexivity.
  - vm_compute in E. discriminate E.
Qed.

(** C1, amended, on the exhaustive extruded search of two columns of three
    layers with the point inside column 1, layer 2, and column 0 beyond the
    tolerance. *)
Lemma first_exact_hit_returned_sample :
  fst (locate_cell tol no_flat_test inside_column_1 (exhaustive_xtr 2 3)
         temp0 found0 dist0) = 5 /\
  found_ref_coords (snd (locate_cell tol no_flat_test inside_column_1
                           (exhaustive_xtr 2 3) temp0 found0 dist0)) = Xtr 1 2 /\
  found_ref_cell_dist_l1 (snd (locate_cell tol no_flat_test inside_column_1
                                 (exhaustive_xtr 2 3) temp0 found0 dist0)) = (-1)%float /\
  calls (snd (locate_cell tol no_flat_test inside_column_1
                (exhaustive_xtr 2 3) temp0 found0 dist0)) =
    [Xtr 0 0; Xtr 0 1; Xtr 0 2; Xtr 1 0; Xtr 1 1; Xtr 1 2].
Proof.
  apply (first_exact_hit_returned tol no_flat_test inside_column_1
           (exhaustive_xtr 2 3) temp0 found0 dist0
           [(Xtr 0 0, 0); (Xtr 0 1, 1); (Xtr 0 2, 2); (Xtr 1 0, 3); (Xtr 1 1, 4)]
           (Xtr 1 2, 5) []).
  - reflexivity.
  - each_candidate.
  - reflexivity.
  - intros _. each_candidate.
Defined.



(** C4, on two cells at distances 2 and 0.5 under the tolerance 0.25. *)
Lemma all_beyond_tolerance_not_found_sample :
  fst (locate_cell tol far no_xtr_test (exhaustive_flat 2) temp0 found0 dist0) = -1.
Proof.
  apply (all_beyond_tolerance_not_found tol far no_xtr_test
           (exhaustive_flat 2) temp0 found0 dist0).
  each_candidate.
Defined.

(** C5, on column 1, layer 2 of two columns of three layers. *)
Lemma decode_encode_sample : decode (encode 1 2 3) 3 = (1, 2).
Proof. apply (decode_encode 1 2 2 3); lia. Defined.

(** C7, on an indexed flat search with [RT_Failure] in [err]. *)
Lemma index_error_aborts_sample :
  fst (locate_cell_err tol far no_xtr_test RT_Failure
         (indexed_flat 2 [1; 2]) temp0 found0 dist0) = -1 /\
  calls (snd (locate_cell_err tol far no_xtr_test RT_Failure
                (indexed_flat 2 [1; 2]) temp0 found0 dist0)) = [] /\
  stderr (snd (locate_cell_err tol far no_xtr_test RT_Failure
                 (indexed_flat 2 [1; 2]) temp0 found0 dist0)) = [index_error_message] /\
  found_ref_coords (snd (locate_cell_err tol far no_xtr_test RT_Failure
                 (indexed_flat 2 [1; 2]) temp0 found0 dist0)) = found0 /\
  found_ref_cell_dist_l1 (snd (locate_cell_err tol far no_xtr_test RT_Failure
                 (indexed_flat 2 [1; 2]) temp0 found0 dist0)) = dist0.
Proof.
  apply (proj1 (index_error_aborts tol far no_xtr_test) RT_Failure
           (indexed_flat 2 [1; 2]) temp0 found0 dist0); discriminate.
Defined.

(** C8: no search accepts a nearest candidate whose strictly positive
    distance equals the tolerance. *)
Lemma no_acceptance_at_tolerance : ~ spec_accepts_at_tolerance.
Proof.
  intros (RefCoords & tolerance & try_candidate & try_candidate_xtr & f &
          temp & found & found_dist & p & Hp & Hmin & Hpos & Heq & Hret & Hid).
  destruct (nearest_at_tolerance_not_found tolerance try_candidate try_candidate_xtr
              f temp found found_dist p Hp Hmin Hpos Heq) as [E _].
  apply Hid. rewrite <- Hret. exact E.
Qed.

(** C8, amended, on two cells at distances 2 and 0.25 under the tolerance
    0.25. *)
Lemma nearest_at_tolerance_not_found_sample :
  fst (locate_cell tol at_tolerance no_xtr_test (exhaustive_flat 2)
         temp0 found0 dist0) = -1 /\
  found_ref_coords (snd (locate_cell tol at_tolerance no_xtr_test (exhaustive_flat 2)
                           temp0 found0 dist0)) = found0 /\
  found_ref_cell_dist_l1 (snd (locate_cell tol at_tolerance no_xtr_test (exhaustive_flat 2)
                                 temp0 found0 dist0)) = dist0.
Proof.
  apply (nearest_at_tolerance_not_found tol at_tolerance no_xtr_test
           (exhaustive_flat 2) temp0 found0 dist0 (Flat 1, 1)).
  - right. left. reflexivity.
  - each_candidate.
  - reflexivity.
  - reflexivity.
Defined.

(** With an error status in [err], which no call of [locate_cell] has, the
    return of line 48 would come before the release of line 98 and leave
    the buffer filled by the query allocated. *)
Example error_return_precedes_release :
  ids (snd (locate_cell_err tol far no_xtr_test RT_Failure
              (indexed_flat 2 [1; 2]) temp0 found0 dist0)) = Live [1; 2].
Proof. reflexivity. Qed.

(** C9, on three indexed searches: one that ends on an exact hit (column
    1, layer 2, after the id 4), one that accepts cell 2 under tolerance and
    one that finds nothing. *)
Lemma ids_released_sample :
  (fst (locate_cell tol no_flat_test inside_column_1
          (indexed_xtr 2 3 [4; 5; 3]) temp0 found0 dist0) = 5 /\
   ids (snd (locate_cell tol no_flat_test inside_column_1
               (indexed_xtr 2 3 [4; 5; 3]) temp0 found0 dist0)) = Released) /\
  (fst (locate_cell tol near_cell_2 no_xtr_test
          (indexed_flat 3 [3; 1]) temp0 found0 dist0) = 2 /\
   ids (snd (locate_cell tol near_cell_2 no_xtr_test
               (indexed_flat 3 [3; 1]) temp0 found0 dist0)) = Released) /\
  (fst (locate_cell tol far no_xtr_test
          (indexed_flat 2 [1; 2]) temp0 found0 dist0) = -1 /\
   ids (snd (locate_cell tol far no_xtr_test
               (indexed_flat 2 [1; 2]) temp0 found0 dist0)) = Released).
Proof.
  split; [|split]; (split; [reflexivity|]).
  - apply (proj1 (ids_released tol no_flat_test inside_column_1
                    (indexed_xtr 2 3 [4; 5; 3]) [4; 5; 3] temp0 found0 dist0 eq_refl)).
  - apply (proj1 (ids_released tol near_cell_2 no_xtr_test
                    (indexed_flat 3 [3; 1]) [3; 1] temp0 found0 dist0 eq_refl)).
  - apply (proj1 (ids_released tol far no_xtr_test
                    (indexed_flat 2 [1; 2]) [1; 2] temp0 found0 dist0 eq_refl)).
Defined.

(** C10, on an indexed flat search of two cells beyond the tolerance. *)
Lemma not_found_leaves_outputs_sample :
  found_ref_coords (snd (locate_cell tol far no_xtr_test
                           (indexed_flat 2 [1; 2]) temp0 found0 dist0)) = found0 /\
  found_ref_cell_dist_l1 (snd (locate_cell tol far no_xtr_test
                                 (indexed_flat 2 [1; 2]) temp0 found0 dist0)) = dist0.
Proof.
  apply (proj2 (not_found_leaves_outputs tol far no_xtr_test
                  (indexed_flat 2 [1; 2]) temp0 found0 dist0)).
  - intros q Hq. vm_compute in Hq.
    destruct Hq as [<-|[<-|[]]]; cbn; lia.
  - reflexivity.
Defined.

(* ================================================================= *)
(** ** Further facts on doubles *)

Module DoubleEdge.
Import DoubleOrder.

Ltac keys := DoubleFacts.keys.

Lemma ltb_leb_leb (x y z : double) :
  (x <? y)%float = true -> (y <=? z)%float = true -> (x <=? z)%float = true.
Proof. intros H1 H2. keys. Qed.

(** Nothing that is not below a bound is below something under the bound. *)
Lemma not_below_bound (r d m : double) :
  (r <=? m)%float = true -> (d <? m)%float = false -> (d <? r)%float = false.
Proof. intros H1 H2. keys. Qed.

(** A distance under the tolerance that is not below the best distance
    shows that the best distance is under the tolerance. *)
Lemma best_under_tolerance (r d m t : double) :
  (r <=? m)%float = true -> (d <? t)%float = true ->
  (d <? r)%float = false -> (r <? t)%float = true.
Proof. intros H1 H2 H3. keys. Qed.

(** Every comparison with a NaN is false. *)
Lemma nan_leb (d x : double) : is_nan d = true -> (d <=? x)%float = false.
Proof.
  unfold is_nan. intros H. apply negb_true_iff in H. keys.
Qed.

Lemma nan_ltb (d x : double) : is_nan d = true -> (d <? x)%float = false.
Proof.
  unfold is_nan. intros H. apply negb_true_iff in H. keys.
Qed.

(** Nothing is below a NaN. *)
Lemma below_nan (d t : double) :
  (d <? t)%float = true -> is_nan t = true -> False.
Proof.
  unfold is_nan. intros H1 H2. apply negb_true_iff in H2. keys.
Qed.

(** Under a tolerance that is not positive, nothing is both outside a cell
    and under the tolerance. *)
Lemma nothing_under_nonpositive (d t : double) :
  (t <=? 0)%float = true -> (d <? t)%float = true -> (d <=? 0)%float = true.
Proof. intros H1 H2. keys. Qed.

End DoubleEdge.

(* ================================================================= *)
(** ** Which candidates a loop accepts *)

Section AcceptanceFacts.

Context {RefCoords : Type}.
Variable tolerance : double.
Variable try_candidate : Z -> RefCoords * double.
Variable try_candidate_xtr : Z -> Z -> RefCoords * double.

Local Abbreviation visit' := (visit tolerance try_candidate try_candidate_xtr).
Local Abbreviation scan' := (scan tolerance try_candidate try_candidate_xtr).
Local Abbreviation dist' := (dist try_candidate try_candidate_xtr).
Local Abbreviation coords' := (coords try_candidate try_candidate_xtr).
Local Abbreviation outside' := (outside try_candidate try_candidate_xtr).
Local Abbreviation columns' := (columns tolerance try_candidate_xtr).
Local Abbreviation exact_hit' := (exact_hit try_candidate try_candidate_xtr).
Local Abbreviation under_tolerance' :=
  (under_tolerance tolerance try_candidate try_candidate_xtr).
Local Abbreviation acceptable' :=
  (acceptable tolerance try_candidate try_candidate_xtr).
Local Abbreviation locate_cell' :=
  (locate_cell tolerance try_candidate try_candidate_xtr).

Implicit Types (s : state RefCoords) (p q : candidate) (temp found : RefCoords).

Ltac visit_cases :=
  unfold visit, examine, dist, coords in *;
  cbn [invoke accept set_ref_cell_dist_l1 cell ref_cell_dist_l1
       current_ref_cell_dist_l1 temp_ref_coords found_ref_coords
       found_ref_cell_dist_l1 ids stderr calls fst snd] in *.

Lemma acceptable_false p :
  acceptable' p = false ->
  outside' p /\
  ((dist' (fst p) <? DBL_MAX)%float = false \/
   (dist' (fst p) <? tolerance)%float = false).
Proof.
  unfold acceptable, exact_hit, under_tolerance, outside. intros H.
  apply orb_false_iff in H. destruct H as [H1 H2].
  apply andb_false_iff in H2. auto.
Qed.

(** The best distance never exceeds the [DBL_MAX] it starts from. *)
Lemma visit_bounded p s :
  (ref_cell_dist_l1 s <=? DBL_MAX)%float = true ->
  (ref_cell_dist_l1 (fst (visit' p s)) <=? DBL_MAX)%float = true.
Proof.
  intros H. visit_cases. destruct (_ <=? 0)%float; [exact H|].
  destruct (_ <? ref_cell_dist_l1 s)%float eqn:E; [|exact H].
  pose proof (DoubleEdge.ltb_leb_leb _ _ _ E H) as Hd.
  destruct (_ <? tolerance)%float; exact Hd.
Qed.

Lemma scan_bounded l s :
  (ref_cell_dist_l1 s <=? DBL_MAX)%float = true ->
  (ref_cell_dist_l1 (scan' l s) <=? DBL_MAX)%float = true.
Proof.
  revert s. induction l as [|p l IH]; intros s H; [exact H|].
  rewrite scan_cons. pose proof (visit_bounded p s H) as Hv.
  destruct (_ <=? 0)%float; [exact Hv | apply IH, Hv].
Qed.

(** A candidate that is not acceptable leaves the result as it is. *)
Lemma visit_inert p s :
  acceptable' p = false ->
  (ref_cell_dist_l1 s <=? DBL_MAX)%float = true ->
  cell (fst (visit' p s)) = cell s /\
  found_ref_coords (fst (visit' p s)) = found_ref_coords s /\
  found_ref_cell_dist_l1 (fst (visit' p s)) = found_ref_cell_dist_l1 s.
Proof.
  intros Ha Hb. destruct (acceptable_false p Ha) as [Ho [Hm|Ht]].
  - pose proof (DoubleEdge.not_below_bound _ _ _ Hb Hm) as Hn.
    destruct (visit_not_closer tolerance try_candidate try_candidate_xtr p s Ho Hn)
      as (H1 & H2 & H3 & _). auto.
  - apply (visit_unaccepted tolerance try_candidate try_candidate_xtr p s Ho Ht).
Qed.

Lemma scan_inert l s :
  (forall q, In q l -> acceptable' q = false) ->
  (ref_cell_dist_l1 s <=? DBL_MAX)%float = true ->
  cell (scan' l s) = cell s /\
  found_ref_coords (scan' l s) = found_ref_coords s /\
  found_ref_cell_dist_l1 (scan' l s) = found_ref_cell_dist_l1 s /\
  calls (scan' l s) = calls s ++ map fst l.
Proof.
  intros H Hb. split; [|split; [|split]].
  4: { apply scan_outside_calls. intros q Hq. apply acceptable_false, H, Hq. }
  all: revert s Hb; induction l as [|p l IH]; intros s Hb; [reflexivity|].
  all: destruct (acceptable_false p (H p (or_introl eq_refl))) as [Ho _].
  all: destruct (visit_inert p s (H p (or_introl eq_refl)) Hb) as (E1 & E2 & E3).
  all: rewrite scan_cons, Ho, IH;
    [ assumption | intros q Hq; apply H; right; exact Hq | apply visit_bounded, Hb ].
Qed.

(** The ids stored by a loop are those of its candidates: when none is
    [-1], a result once recorded keeps [cell] off [-1]. *)
Lemma scan_cell_kept l s :
  (forall q, In q l -> snd q <> -1) ->
  cell s <> -1 -> cell (scan' l s) <> -1.
Proof.
  intros Hid Hs.
  destruct (scan_result tolerance try_candidate try_candidate_xtr l s)
    as [(-> & _)|(q & Hq & -> & _)]; [exact Hs | apply Hid, Hq].
Qed.

(** A loop that ends with [cell] at [-1] had no acceptable candidate, and
    its best distance, if it moved, is not under the tolerance. *)
Lemma scan_rejects l s :
  (forall q, In q l -> snd q <> -1) ->
  (ref_cell_dist_l1 s <=? DBL_MAX)%float = true ->
  (ref_cell_dist_l1 s = DBL_MAX \/ (ref_cell_dist_l1 s <? tolerance)%float = false) ->
  cell (scan' l s) = -1 ->
  (forall q, In q l -> acceptable' q = false) /\
  (ref_cell_dist_l1 (scan' l s) = DBL_MAX \/
   (ref_cell_dist_l1 (scan' l s) <? tolerance)%float = false).
Proof.
  revert s. induction l as [|p l IH]; intros s Hid Hb Hj Hend.
  - split; [intros q []|exact Hj].
  - assert (Hid' : forall q, In q l -> snd q <> -1)
      by (intros q Hq; apply Hid; right; exact Hq).
    assert (Hp : snd p <> -1) by (apply Hid; left; reflexivity).
    rewrite scan_cons in Hend |- *.
    destruct (dist' (fst p) <=? 0)%float eqn:E0.
    { exfalso. apply Hp.
      destruct (visit_exact tolerance try_candidate try_candidate_xtr p s E0) as (<- & _).
      exact Hend. }
    destruct (dist' (fst p) <? ref_cell_dist_l1 s)%float eqn:E1.
    + destruct (dist' (fst p) <? tolerance)%float eqn:E2.
      { exfalso. revert Hend. apply scan_cell_kept; [exact Hid'|].
        destruct (visit_closer tolerance try_candidate try_candidate_xtr p s E0 E1 E2)
          as (-> & _). exact Hp. }
      assert (Hr : ref_cell_dist_l1 (fst (visit' p s)) = dist' (fst p)).
      { clear Hend. visit_cases. rewrite E0, E1, E2. reflexivity. }
      destruct (IH (fst (visit' p s)) Hid') as [Hall Hj']; try assumption.
      * apply visit_bounded, Hb.
      * right. rewrite Hr. exact E2.
      * split; [|exact Hj']. intros q [<-|Hq]; [|apply Hall, Hq].
        unfold acceptable, exact_hit, under_tolerance.
        rewrite E0, E2, andb_false_r. reflexivity.
    + destruct (visit_not_closer tolerance try_candidate try_candidate_xtr p s E0 E1)
        as (_ & _ & _ & Hr).
      destruct (IH (fst (visit' p s)) Hid') as [Hall Hj']; try assumption.
      * rewrite Hr. exact Hb.
      * rewrite Hr. exact Hj.
      * split; [|exact Hj']. intros q [<-|Hq]; [|apply Hall, Hq].
        unfold acceptable, exact_hit, under_tolerance. rewrite E0. cbn [orb].
        destruct (dist' (fst p) <? DBL_MAX)%float eqn:Em; [|reflexivity].
        destruct (dist' (fst p) <? tolerance)%float eqn:Et; [|reflexivity].
        exfalso. destruct Hj as [Hj|Hj].
        -- rewrite Hj in E1. congruence.
        -- pose proof (DoubleEdge.best_under_tolerance _ _ _ _ Hb Et E1). congruence.
Qed.

(* ----------------------------------------------------------------- *)
(** *** Columns and whole searches *)

Lemma columns_bounded f cols s :
  (ref_cell_dist_l1 s <=? DBL_MAX)%float = true ->
  (ref_cell_dist_l1 (columns' f cols s) <=? DBL_MAX)%float = true.
Proof.
  revert s. induction cols as [|c cols IH]; intros s H; [exact H|].
  rewrite (columns_cons tolerance try_candidate try_candidate_xtr). pose proof (scan_bounded (layers f c) s H) as Hb.
  destruct (cell _ =? -1); [apply IH, Hb | exact Hb].
Qed.

(** Columns without acceptable layer are searched in full and leave the
    result as it is. *)
Lemma columns_inert f cols s :
  cell s = -1 ->
  (ref_cell_dist_l1 s <=? DBL_MAX)%float = true ->
  (forall c l, In c cols -> In l (range (n_layers f)) ->
     acceptable' (xtr_candidate f c l) = false) ->
  cell (columns' f cols s) = -1 /\
  found_ref_coords (columns' f cols s) = found_ref_coords s /\
  found_ref_cell_dist_l1 (columns' f cols s) = found_ref_cell_dist_l1 s /\
  calls (columns' f cols s) =
    calls s ++ flat_map (fun c => map (Xtr c) (range (n_layers f))) cols.
Proof.
  revert s. induction cols as [|c cols IH]; intros s Hs Hb H.
  - cbn. rewrite app_nil_r. auto.
  - rewrite (columns_cons tolerance try_candidate try_candidate_xtr).
    destruct (scan_inert (layers f c) s) as (Hc & Hf & Hg & Hk); [|exact Hb|].
    { intros q Hq. apply layers_in in Hq. destruct Hq as (l & Hl & ->).
      apply (H c l); [left; reflexivity | exact Hl]. }
    rewrite Hc, Hs. cbn [Z.eqb Pos.eqb].
    destruct (IH (scan' (layers f c) s)) as (-> & -> & -> & ->).
    + rewrite Hc. exact Hs.
    + apply scan_bounded, Hb.
    + intros c' l Hc' Hl. apply H; [right; exact Hc' | exact Hl].
    + rewrite Hk, layers_calls, <- app_assoc. cbn [flat_map]. auto.
Qed.

Lemma columns_inert_app f pre rest s :
  cell s = -1 ->
  (ref_cell_dist_l1 s <=? DBL_MAX)%float = true ->
  (forall c l, In c pre -> In l (range (n_layers f)) ->
     acceptable' (xtr_candidate f c l) = false) ->
  columns' f (pre ++ rest) s = columns' f rest (columns' f pre s).
Proof.
  revert s. induction pre as [|c pre IH]; intros s Hs Hb H; [reflexivity|].
  cbn [app]. rewrite !(columns_cons tolerance try_candidate try_candidate_xtr).
  destruct (scan_inert (layers f c) s) as (Hc & _); [|exact Hb|].
  { intros q Hq. apply layers_in in Hq. destruct Hq as (l & Hl & ->).
    apply (H c l); [left; reflexivity | exact Hl]. }
  rewrite Hc, Hs. cbn [Z.eqb Pos.eqb]. apply IH.
  - rewrite Hc. exact Hs.
  - apply scan_bounded, Hb.
  - intros c' l Hc' Hl. apply H; [right; exact Hc' | exact Hl].
Qed.

Lemma layers_ids f c q : In q (layers f c) -> snd q <> -1.
Proof.
  intros Hq. apply layers_in in Hq. destruct Hq as (l & Hl & ->).
  apply range_bounds in Hl. cbn. lia.
Qed.

(** The column loop ends with [cell] at [-1] only if no layer of any
    column was acceptable. *)
Lemma columns_rejects f cols s :
  (forall c, In c cols -> 0 <= c) ->
  cell s = -1 ->
  (ref_cell_dist_l1 s <=? DBL_MAX)%float = true ->
  (ref_cell_dist_l1 s = DBL_MAX \/ (ref_cell_dist_l1 s <? tolerance)%float = false) ->
  cell (columns' f cols s) = -1 ->
  forall c l, In c cols -> In l (range (n_layers f)) ->
    acceptable' (xtr_candidate f c l) = false.
Proof.
  revert s. induction cols as [|c cols IH]; intros s Hcols Hs Hb Hj Hend c' l Hc' Hl;
    [destruct Hc'|].
  rewrite (columns_cons tolerance try_candidate try_candidate_xtr) in Hend.
  destruct (Z.eqb_spec (cell (scan' (layers f c) s)) (-1)) as [E|E].
  - destruct (scan_rejects (layers f c) s (layers_ids f c) Hb Hj E) as [Hall Hj'].
    destruct Hc' as [<-|Hc'].
    + apply (Hall (layer_candidate c l)). unfold layers. apply in_map. exact Hl.
    + apply (IH (scan' (layers f c) s)); auto.
      * intros c0 H0. apply Hcols. right. exact H0.
      * apply scan_bounded, Hb.
  - exfalso. cbn [set_cell cell] in Hend.
    destruct (scan_result tolerance try_candidate try_candidate_xtr (layers f c) s)
      as [(Hc & _)|(q & Hq & Hc & _)].
    + apply E. rewrite Hc. exact Hs.
    + apply layers_in in Hq. destruct Hq as (l0 & Hl0 & ->).
      apply range_bounds in Hl0. rewrite Hc in Hend. cbn in Hend.
      assert (0 <= c) by (apply Hcols; left; reflexivity).
      unfold encode in Hend. nia.
Qed.

(** A search without acceptable candidate tests every candidate and
    reports nothing. *)
Lemma search_inert f temp found found_dist :
  (forall q, In q (candidates f) -> acceptable' q = false) ->
  fst (locate_cell' f temp found found_dist) = -1 /\
  found_ref_coords (snd (locate_cell' f temp found found_dist)) = found /\
  found_ref_cell_dist_l1 (snd (locate_cell' f temp found found_dist)) = found_dist /\
  calls (snd (locate_cell' f temp found found_dist)) = map fst (candidates f).
Proof.
  intros H.
  destruct (start_frame f temp found found_dist) as (Hc & Hr & Hf & Hg & Hk & _).
  destruct (variant_of f) eqn:V.
  4: {
    rewrite locate_cell_columns by exact V. cbn [fst snd].
    destruct (columns_inert f (range (n_cols f)) (initial temp found found_dist))
      as (E1 & E2 & E3 & E4); [reflexivity|reflexivity| |].
    - intros c l Hcol Hl. apply H.
      apply candidates_layered; [exact V|]. exists c, l. auto.
    - rewrite E1, E2, E3, E4, candidates_layered_eq, candidates_layered_calls by exact V.
      auto. }
  all: rewrite locate_cell_single_loop by (rewrite V; discriminate); cbn [fst snd].
  all: destruct (scan_inert (candidates f) (start f temp found found_dist) H)
        as (E1 & E2 & E3 & E4); [rewrite Hr; reflexivity|].
  all: destruct (finish_frame f (scan' (candidates f) (start f temp found found_dist)))
        as (_ & -> & -> & -> & _).
  all: rewrite E1, E2, E3, E4, Hk; auto.
Qed.

(** A search that returns [-1] had no acceptable candidate, when no
    candidate is reported as [-1]. *)
Lemma search_rejects f temp found found_dist :
  (forall q, In q (candidates f) -> snd q <> -1) ->
  fst (locate_cell' f temp found found_dist) = -1 ->
  forall q, In q (candidates f) -> acceptable' q = false.
Proof.
  intros Hid. destruct (variant_of f) eqn:V.
  4: {
    rewrite locate_cell_columns by exact V. cbn [fst]. intros Hend q Hq.
    apply candidates_layered in Hq; [|exact V].
    destruct Hq as (c & l & Hc & Hl & ->).
    apply (columns_rejects f (range (n_cols f)) (initial temp found found_dist));
      auto.
    intros c0 H0. apply range_bounds in H0. lia. }
  all: rewrite locate_cell_single_loop by (rewrite V; discriminate); cbn [fst].
  all: destruct (start_frame f temp found found_dist) as (_ & Hr & _).
  all: intros Hend;
    apply (scan_rejects (candidates f) (start f temp found found_dist) Hid);
    [rewrite Hr; reflexivity | left; exact Hr | exact Hend].
Qed.

(* ----------------------------------------------------------------- *)
(** *** What is recorded was acceptable *)

Lemma visit_accepted p s :
  (ref_cell_dist_l1 s <=? DBL_MAX)%float = true ->
  (cell (fst (visit' p s)) = cell s /\
   found_ref_coords (fst (visit' p s)) = found_ref_coords s /\
   found_ref_cell_dist_l1 (fst (visit' p s)) = found_ref_cell_dist_l1 s) \/
  (cell (fst (visit' p s)) = snd p /\
   found_ref_coords (fst (visit' p s)) = coords' (fst p) /\
   found_ref_cell_dist_l1 (fst (visit' p s)) = dist' (fst p) /\
   acceptable' p = true).
Proof.
  intros Hb. unfold acceptable, exact_hit, under_tolerance.
  destruct (dist' (fst p) <=? 0)%float eqn:E0.
  { right. destruct (visit_exact tolerance try_candidate try_candidate_xtr p s E0)
      as (-> & -> & ->). auto. }
  destruct (dist' (fst p) <? ref_cell_dist_l1 s)%float eqn:E1.
  - destruct (dist' (fst p) <? tolerance)%float eqn:E2.
    + right.
      destruct (visit_closer tolerance try_candidate try_candidate_xtr p s E0 E1 E2)
        as (-> & -> & -> & _).
      rewrite (DoubleFacts.ltb_leb_trans _ _ _ E1 Hb). auto.
    + left. apply (visit_unaccepted tolerance try_candidate try_candidate_xtr p s E0 E2).
  - left. destruct (visit_not_closer tolerance try_candidate try_candidate_xtr p s E0 E1)
      as (H1 & H2 & H3 & _). auto.
Qed.

Lemma scan_accepted l s :
  (ref_cell_dist_l1 s <=? DBL_MAX)%float = true ->
  (cell (scan' l s) = cell s /\
   found_ref_coords (scan' l s) = found_ref_coords s /\
   found_ref_cell_dist_l1 (scan' l s) = found_ref_cell_dist_l1 s) \/
  (exists p, In p l /\
   cell (scan' l s) = snd p /\
   found_ref_coords (scan' l s) = coords' (fst p) /\
   found_ref_cell_dist_l1 (scan' l s) = dist' (fst p) /\
   acceptable' p = true).
Proof.
  revert s. induction l as [|p l IH]; intros s Hb; [left; auto|].
  rewrite scan_cons.
  destruct (_ <=? 0)%float.
  - destruct (visit_accepted p s Hb) as [H|H]; [left; exact H|].
    right. exists p. split; [left; reflexivity | exact H].
  - destruct (IH (fst (visit' p s)) (visit_bounded p s Hb))
      as [(Hc & Hf & Hg)|(q & Hq & H)].
    + rewrite Hc, Hf, Hg.
      destruct (visit_accepted p s Hb) as [H|H]; [left; exact H|].
      right. exists p. split; [left; reflexivity | exact H].
    + right. exists q. split; [right; exact Hq | exact H].
Qed.

Lemma columns_accepted f cols s :
  cell s = -1 ->
  (ref_cell_dist_l1 s <=? DBL_MAX)%float = true ->
  (cell (columns' f cols s) = -1 /\
   found_ref_coords (columns' f cols s) = found_ref_coords s /\
   found_ref_cell_dist_l1 (columns' f cols s) = found_ref_cell_dist_l1 s) \/
  (exists c l, In c cols /\ In l (range (n_layers f)) /\
   cell (columns' f cols s) = encode c l (n_layers f) /\
   found_ref_coords (columns' f cols s) = coords' (Xtr c l) /\
   found_ref_cell_dist_l1 (columns' f cols s) = dist' (Xtr c l) /\
   acceptable' (xtr_candidate f c l) = true).
Proof.
  revert s. induction cols as [|c cols IH]; intros s Hs Hb; [left; auto|].
  rewrite (columns_cons tolerance try_candidate try_candidate_xtr).
  destruct (scan_accepted (layers f c) s Hb)
    as [(Hc & Hf & Hg)|(q & Hq & Hc & Hf & Hg & Ha)].
  - rewrite Hc, Hs. cbn [Z.eqb Pos.eqb].
    destruct (IH (scan' (layers f c) s)) as [H|(c' & l & Hc' & H)].
    + rewrite Hc. exact Hs.
    + apply scan_bounded, Hb.
    + left. rewrite <- Hf, <- Hg. exact H.
    + right. exists c', l. split; [right; exact Hc' | exact H].
  - apply layers_in in Hq. destruct Hq as (l & Hl & ->).
    cbn [layer_candidate fst snd] in Hc, Hf, Hg.
    right. exists c, l. split; [left; reflexivity|]. split; [exact Hl|].
    pose proof Hl as Hl'. apply range_bounds in Hl'.
    destruct (Z.eqb_spec (cell (scan' (layers f c) s)) (-1)) as [E|E]; [lia|].
    cbn [set_cell cell found_ref_coords found_ref_cell_dist_l1].
    rewrite Hc. auto.
Qed.

Lemma search_accepted f temp found found_dist :
  (fst (locate_cell' f temp found found_dist) = -1 /\
   found_ref_coords (snd (locate_cell' f temp found found_dist)) = found /\
   found_ref_cell_dist_l1 (snd (locate_cell' f temp found found_dist)) = found_dist) \/
  (exists p, In p (candidates f) /\
   fst (locate_cell' f temp found found_dist) = snd p /\
   found_ref_coords (snd (locate_cell' f temp found found_dist)) = coords' (fst p) /\
   found_ref_cell_dist_l1 (snd (locate_cell' f temp found found_dist)) = dist' (fst p) /\
   acceptable' p = true).
Proof.
  destruct (start_frame f temp found found_dist) as (Hc & Hr & Hf & Hg & _).
  destruct (variant_of f) eqn:V.
  4: {
    rewrite locate_cell_columns by exact V. cbn [fst snd].
    destruct (columns_accepted f (range (n_cols f)) (initial temp found found_dist)
                eq_refl eq_refl) as [H|(c & l & Hcol & Hl & H)]; [left; exact H|].
    right. exists (xtr_candidate f c l). split; [|exact H].
    apply candidates_layered; [exact V|]. exists c, l. auto. }
  all: rewrite locate_cell_single_loop by (rewrite V; discriminate); cbn [fst snd].
  all: destruct (finish_frame f (scan' (candidates f) (start f temp found found_dist)))
        as (_ & -> & -> & _).
  all: destruct (scan_accepted (candidates f) (start f temp found found_dist))
        as [(E1 & E2 & E3)|H]; [rewrite Hr; reflexivity | | right; exact H].
  all: left; rewrite E1, E2, E3; auto.
Qed.

(* ----------------------------------------------------------------- *)
(** *** The tests a search invokes *)

Lemma scan_sentinel_outside l s :
  (forall q, In q l -> snd q <> -1) ->
  cell (scan' l s) = -1 -> forall q, In q l -> outside' q.
Proof.
  revert s. induction l as [|p l IH]; intros s Hid Hend q Hq; [destruct Hq|].
  rewrite scan_cons in Hend. unfold outside.
  destruct (dist' (fst p) <=? 0)%float eqn:E0.
  - exfalso. apply (Hid p (or_introl eq_refl)).
    destruct (visit_exact tolerance try_candidate try_candidate_xtr p s E0) as (<- & _).
    exact Hend.
  - destruct Hq as [<-|Hq]; [exact E0|].
    apply (IH (fst (visit' p s))); auto. intros q' Hq'. apply Hid. right. exact Hq'.
Qed.

Lemma firstn_within {A : Type} (n : nat) (l1 l2 : list A) :
  exists m, firstn n l1 = firstn m (l1 ++ l2).
Proof.
  destruct (Nat.le_gt_cases n (List.length l1)) as [H|H].
  - exists n. rewrite firstn_app.
    replace (n - List.length l1)%nat with 0%nat by lia. cbn. rewrite app_nil_r. reflexivity.
  - exists (List.length l1). rewrite firstn_all2 by lia. rewrite firstn_app.
    rewrite firstn_all, Nat.sub_diag. cbn. rewrite app_nil_r. reflexivity.
Qed.

Lemma xtr_candidate_calls f c (r : list Z) :
  map fst (map (xtr_candidate f c) r) = map fst (map (layer_candidate c) r).
Proof. rewrite !map_map. reflexivity. Qed.

Lemma columns_calls f cols s :
  exists n,
    calls (columns' f cols s) =
    calls s ++ map fst (firstn n
      (flat_map (fun c => map (xtr_candidate f c) (range (n_layers f))) cols)).
Proof.
  revert s. induction cols as [|c cols IH]; intros s.
  - exists 0%nat. cbn. rewrite app_nil_r. reflexivity.
  - rewrite (columns_cons tolerance try_candidate try_candidate_xtr). cbn [flat_map].
    destruct (Z.eqb_spec (cell (scan' (layers f c) s)) (-1)) as [E|E].
    + destruct (IH (scan' (layers f c) s)) as [n Hn].
      exists (List.length (map (xtr_candidate f c) (range (n_layers f))) + n)%nat.
      rewrite Hn, firstn_app_2, map_app, app_assoc. f_equal.
      rewrite xtr_candidate_calls. fold (layers f c).
      apply scan_outside_calls.
      apply (scan_sentinel_outside (layers f c) s (layers_ids f c) E).
    + cbn [set_cell calls].
      destruct (scan_calls tolerance try_candidate try_candidate_xtr (layers f c) s)
        as [n Hn].
      destruct (firstn_within n (map (xtr_candidate f c) (range (n_layers f)))
                  (flat_map (fun c => map (xtr_candidate f c) (range (n_layers f))) cols))
        as [m Hm].
      exists m. rewrite Hn, <- Hm. unfold layers.
      rewrite !firstn_map, xtr_candidate_calls. reflexivity.
Qed.

Lemma search_calls f temp found found_dist :
  exists n,
    calls (snd (locate_cell' f temp found found_dist)) =
    map fst (firstn n (candidates f)).
Proof.
  destruct (variant_of f) eqn:V.
  4: {
    rewrite locate_cell_columns, candidates_layered_eq by exact V. cbn [snd].
    apply (columns_calls f (range (n_cols f)) (initial temp found found_dist)). }
  all: apply (search_result tolerance try_candidate try_candidate_xtr
                f temp found found_dist); rewrite V; discriminate.
Qed.

(* ----------------------------------------------------------------- *)
(** *** Searches that differ in the caller's buffers or in the index *)

(** Two states run alike when they agree on [cell] and on the best
    distance. *)
Lemma visit_alike p s1 s2 :
  cell s1 = cell s2 -> ref_cell_dist_l1 s1 = ref_cell_dist_l1 s2 ->
  cell (fst (visit' p s1)) = cell (fst (visit' p s2)) /\
  ref_cell_dist_l1 (fst (visit' p s1)) = ref_cell_dist_l1 (fst (visit' p s2)) /\
  ((found_ref_coords (fst (visit' p s1)) = found_ref_coords s1 /\
    found_ref_cell_dist_l1 (fst (visit' p s1)) = found_ref_cell_dist_l1 s1 /\
    found_ref_coords (fst (visit' p s2)) = found_ref_coords s2 /\
    found_ref_cell_dist_l1 (fst (visit' p s2)) = found_ref_cell_dist_l1 s2) \/
   (found_ref_coords (fst (visit' p s1)) = found_ref_coords (fst (visit' p s2)) /\
    found_ref_cell_dist_l1 (fst (visit' p s1)) =
      found_ref_cell_dist_l1 (fst (visit' p s2)))).
Proof.
  intros Hc Hr. visit_cases. rewrite <- Hr.
  destruct (_ <=? 0)%float; [cbn; auto|].
  destruct (_ <? ref_cell_dist_l1 s1)%float; [|cbn; auto 10].
  destruct (_ <? tolerance)%float; cbn; auto 10.
Qed.

Lemma scan_alike l s1 s2 (F1 F2 : RefCoords) (D1 D2 : double) :
  cell s1 = cell s2 -> ref_cell_dist_l1 s1 = ref_cell_dist_l1 s2 ->
  calls s1 = calls s2 ->
  ((found_ref_coords s1 = F1 /\ found_ref_cell_dist_l1 s1 = D1 /\
    found_ref_coords s2 = F2 /\ found_ref_cell_dist_l1 s2 = D2) \/
   (found_ref_coords s1 = found_ref_coords s2 /\
    found_ref_cell_dist_l1 s1 = found_ref_cell_dist_l1 s2)) ->
  cell (scan' l s1) = cell (scan' l s2) /\
  ref_cell_dist_l1 (scan' l s1) = ref_cell_dist_l1 (scan' l s2) /\
  calls (scan' l s1) = calls (scan' l s2) /\
  ((found_ref_coords (scan' l s1) = F1 /\ found_ref_cell_dist_l1 (scan' l s1) = D1 /\
    found_ref_coords (scan' l s2) = F2 /\ found_ref_cell_dist_l1 (scan' l s2) = D2) \/
   (found_ref_coords (scan' l s1) = found_ref_coords (scan' l s2) /\
    found_ref_cell_dist_l1 (scan' l s1) = found_ref_cell_dist_l1 (scan' l s2))).
Proof.
  revert s1 s2. induction l as [|p l IH]; intros s1 s2 Hc Hr Hk Hw; [auto|].
  rewrite !scan_cons.
  destruct (visit_alike p s1 s2 Hc Hr) as (Hc' & Hr' & Hw').
  destruct (visit_frame tolerance try_candidate try_candidate_xtr p s1) as (_ & _ & Hk1).
  destruct (visit_frame tolerance try_candidate try_candidate_xtr p s2) as (_ & _ & Hk2).
  assert (Hk' : calls (fst (visit' p s1)) = calls (fst (visit' p s2)))
    by (rewrite Hk1, Hk2, Hk; reflexivity).
  assert (Hw'' :
    (found_ref_coords (fst (visit' p s1)) = F1 /\
     found_ref_cell_dist_l1 (fst (visit' p s1)) = D1 /\
     found_ref_coords (fst (visit' p s2)) = F2 /\
     found_ref_cell_dist_l1 (fst (visit' p s2)) = D2) \/
    (found_ref_coords (fst (visit' p s1)) = found_ref_coords (fst (visit' p s2)) /\
     found_ref_cell_dist_l1 (fst (visit' p s1)) =
       found_ref_cell_dist_l1 (fst (visit' p s2)))).
  { destruct Hw' as [(E1 & E2 & E3 & E4)|Hw']; [|right; exact Hw'].
    rewrite E1, E2, E3, E4. exact Hw. }
  destruct (_ <=? 0)%float; [auto|]. apply IH; assumption.
Qed.

Lemma columns_alike f cols s1 s2 (F1 F2 : RefCoords) (D1 D2 : double) :
  cell s1 = cell s2 -> ref_cell_dist_l1 s1 = ref_cell_dist_l1 s2 ->
  calls s1 = calls s2 ->
  ((found_ref_coords s1 = F1 /\ found_ref_cell_dist_l1 s1 = D1 /\
    found_ref_coords s2 = F2 /\ found_ref_cell_dist_l1 s2 = D2) \/
   (found_ref_coords s1 = found_ref_coords s2 /\
    found_ref_cell_dist_l1 s1 = found_ref_cell_dist_l1 s2)) ->
  cell (columns' f cols s1) = cell (columns' f cols s2) /\
  calls (columns' f cols s1) = calls (columns' f cols s2) /\
  ((found_ref_coords (columns' f cols s1) = F1 /\
    found_ref_cell_dist_l1 (columns' f cols s1) = D1 /\
    found_ref_coords (columns' f cols s2) = F2 /\
    found_ref_cell_dist_l1 (columns' f cols s2) = D2) \/
   (found_ref_coords (columns' f cols s1) = found_ref_coords (columns' f cols s2) /\
    found_ref_cell_dist_l1 (columns' f cols s1) =
      found_ref_cell_dist_l1 (columns' f cols s2))).
Proof.
  revert s1 s2. induction cols as [|c cols IH]; intros s1 s2 Hc Hr Hk Hw; [auto|].
  rewrite !(columns_cons tolerance try_candidate try_candidate_xtr).
  destruct (scan_alike (layers f c) s1 s2 F1 F2 D1 D2 Hc Hr Hk Hw)
    as (Hc' & Hr' & Hk' & Hw').
  rewrite <- Hc'. destruct (cell (scan' (layers f c) s1) =? -1).
  - apply IH; assumption.
  - cbn. auto.
Qed.

(** A candidate whose distance is a NaN is tested and changes neither the
    result nor the best distance. *)
Lemma visit_undefined p s :
  undefined try_candidate try_candidate_xtr p = true ->
  cell (fst (visit' p s)) = cell s /\
  ref_cell_dist_l1 (fst (visit' p s)) = ref_cell_dist_l1 s /\
  found_ref_coords (fst (visit' p s)) = found_ref_coords s /\
  found_ref_cell_dist_l1 (fst (visit' p s)) = found_ref_cell_dist_l1 s /\
  snd (visit' p s) = false.
Proof.
  unfold undefined. intros H.
  pose proof (DoubleEdge.nan_leb _ 0%float H) as H0.
  pose proof (DoubleEdge.nan_ltb _ (ref_cell_dist_l1 s) H) as H1.
  destruct (visit_not_closer tolerance try_candidate try_candidate_xtr p s H0 H1)
    as (E1 & E2 & E3 & E4).
  rewrite (visit_break tolerance try_candidate try_candidate_xtr). auto.
Qed.

Lemma scan_skips_undefined l s1 s2 :
  cell s1 = cell s2 -> ref_cell_dist_l1 s1 = ref_cell_dist_l1 s2 ->
  found_ref_coords s1 = found_ref_coords s2 ->
  found_ref_cell_dist_l1 s1 = found_ref_cell_dist_l1 s2 ->
  cell (scan' l s1) =
    cell (scan' (filter (fun q => negb (undefined try_candidate try_candidate_xtr q)) l) s2) /\
  found_ref_coords (scan' l s1) =
    found_ref_coords
      (scan' (filter (fun q => negb (undefined try_candidate try_candidate_xtr q)) l) s2) /\
  found_ref_cell_dist_l1 (scan' l s1) =
    found_ref_cell_dist_l1
      (scan' (filter (fun q => negb (undefined try_candidate try_candidate_xtr q)) l) s2).
Proof.
  revert s1 s2. induction l as [|p l IH]; intros s1 s2 Hc Hr Hf Hg; [auto|].
  cbn [filter].
  destruct (undefined try_candidate try_candidate_xtr p) eqn:U; cbn [negb].
  - destruct (visit_undefined p s1 U) as (E1 & E2 & E3 & E4 & E5).
    rewrite scan_cons, <- (visit_break tolerance try_candidate try_candidate_xtr p s1), E5.
    apply IH; congruence.
  - rewrite !scan_cons.
    destruct (visit_alike p s1 s2 Hc Hr) as (Hc' & Hr' & Hw).
    assert (Hfg : found_ref_coords (fst (visit' p s1)) = found_ref_coords (fst (visit' p s2)) /\
                  found_ref_cell_dist_l1 (fst (visit' p s1)) =
                    found_ref_cell_dist_l1 (fst (visit' p s2))).
    { destruct Hw as [(E1 & E2 & E3 & E4)|Hw]; [|exact Hw].
      rewrite E1, E2, E3, E4. auto. }
    destruct Hfg as [Hf' Hg'].
    destruct (_ <=? 0)%float; [auto|]. apply IH; assumption.
Qed.

(* ----------------------------------------------------------------- *)
(** *** The first exact hit and the first acceptable column *)

Lemma first_exact_hit_split l :
  (exists p, In p l /\ exact_hit' p = true) ->
  exists pre q post,
    l = pre ++ q :: post /\ (forall x, In x pre -> outside' x) /\
    exact_hit' q = true.
Proof.
  induction l as [|a l IH]; intros (p & Hp & He); [destruct Hp|].
  destruct (exact_hit' a) eqn:Ea.
  - exists [], a, l. split; [reflexivity|]. split; [intros x []|exact Ea].
  - destruct IH as (pre & q & post & -> & Hpre & Hq).
    + destruct Hp as [<-|Hp]; [congruence|]. exists p. auto.
    + exists (a :: pre), q, post. split; [reflexivity|]. split; [|exact Hq].
      intros x [<-|Hx]; [exact Ea | apply Hpre, Hx].
Qed.

Lemma range_before (n x : Z) :
  0 <= x < n -> exists after, range n = range x ++ x :: after.
Proof.
  intros H. unfold range.
  replace (Z.to_nat n) with (Z.to_nat x + S (Z.to_nat n - S (Z.to_nat x)))%nat by lia.
  rewrite seq_app, map_app. cbn [seq map Nat.add].
  rewrite Z2Nat.id by lia. eexists. reflexivity.
Qed.

(** Columns without acceptable layer leave the best distance at [DBL_MAX]
    or off the tolerance. *)
Lemma columns_inert_best f cols s :
  cell s = -1 ->
  (ref_cell_dist_l1 s <=? DBL_MAX)%float = true ->
  (ref_cell_dist_l1 s = DBL_MAX \/ (ref_cell_dist_l1 s <? tolerance)%float = false) ->
  (forall c l, In c cols -> In l (range (n_layers f)) ->
     acceptable' (xtr_candidate f c l) = false) ->
  ref_cell_dist_l1 (columns' f cols s) = DBL_MAX \/
  (ref_cell_dist_l1 (columns' f cols s) <? tolerance)%float = false.
Proof.
  revert s. induction cols as [|c cols IH]; intros s Hs Hb Hj H; [exact Hj|].
  rewrite (columns_cons tolerance try_candidate try_candidate_xtr).
  assert (Hq : forall q, In q (layers f c) -> acceptable' q = false).
  { intros q Hq. apply layers_in in Hq. destruct Hq as (l & Hl & ->).
    apply (H c l); [left; reflexivity | exact Hl]. }
  destruct (scan_inert (layers f c) s Hq Hb) as (Hc & _).
  assert (Hend : cell (scan' (layers f c) s) = -1) by (rewrite Hc; exact Hs).
  destruct (scan_rejects (layers f c) s (layers_ids f c) Hb Hj Hend) as [_ Hj'].
  rewrite Hend. cbn [Z.eqb Pos.eqb]. apply IH; auto.
  - apply scan_bounded, Hb.
  - intros c' l Hc' Hl. apply H; [right; exact Hc' | exact Hl].
Qed.

(** The exhaustive extruded search returns a layer of the first column
    that has an acceptable layer, and tests no later column. *)
Lemma search_first_column f temp found found_dist (c l : Z) :
  variant_of f = ExhaustiveLayered ->
  In c (range (n_cols f)) -> In l (range (n_layers f)) ->
  acceptable' (xtr_candidate f c l) = true ->
  (forall c' l', In c' (range c) -> In l' (range (n_layers f)) ->
     acceptable' (xtr_candidate f c' l') = false) ->
  exists l0 n,
    In l0 (range (n_layers f)) /\
    acceptable' (xtr_candidate f c l0) = true /\
    fst (locate_cell' f temp found found_dist) = encode c l0 (n_layers f) /\
    found_ref_coords (snd (locate_cell' f temp found found_dist)) = coords' (Xtr c l0) /\
    found_ref_cell_dist_l1 (snd (locate_cell' f temp found found_dist)) = dist' (Xtr c l0) /\
    calls (snd (locate_cell' f temp found found_dist)) =
      flat_map (fun c' => map (Xtr c') (range (n_layers f))) (range c)
      ++ map (Xtr c) (firstn n (range (n_layers f))).
Proof.
  intros V Hc Hl Ha Hbefore.
  rewrite locate_cell_columns by exact V. cbn [fst snd].
  apply range_bounds in Hc. destruct (range_before (n_cols f) c Hc) as [after ->].
  set (s0 := initial temp found found_dist).
  rewrite (columns_inert_app f (range c) (c :: after) s0 eq_refl eq_refl Hbefore).
  destruct (columns_inert f (range c) s0 eq_refl eq_refl Hbefore) as (E1 & _ & _ & E4).
  pose proof (columns_bounded f (range c) s0 eq_refl) as Hb.
  pose proof (columns_inert_best f (range c) s0 eq_refl eq_refl
                (or_introl eq_refl) Hbefore) as Hj.
  set (s1 := columns' f (range c) s0) in *.
  assert (Hne : cell (scan' (layers f c) s1) <> -1).
  { intros Hend.
    destruct (scan_rejects (layers f c) s1 (layers_ids f c) Hb Hj Hend) as [Hall _].
    assert (Hx : acceptable' (layer_candidate c l) = false)
      by (apply Hall; unfold layers; apply in_map; exact Hl).
    change (acceptable' (xtr_candidate f c l) = false) in Hx. congruence. }
  rewrite (columns_stop tolerance try_candidate try_candidate_xtr f c after s1 Hne).
  cbn [set_cell cell found_ref_coords found_ref_cell_dist_l1 calls].
  destruct (scan_accepted (layers f c) s1 Hb)
    as [(Hcell & _)|(q & Hq & Hcell & Hf & Hg & Hacc)].
  { exfalso. apply Hne. rewrite Hcell. exact E1. }
  apply layers_in in Hq. destruct Hq as (l0 & Hl0 & ->).
  destruct (scan_calls tolerance try_candidate try_candidate_xtr (layers f c) s1)
    as [n Hn].
  exists l0, n. rewrite Hcell, Hf, Hg, Hn, E4.
  repeat split; try assumption.
  unfold layers. rewrite firstn_map, map_map. reflexivity.
Qed.

(* ----------------------------------------------------------------- *)
(** *** The candidates of particular searches *)

Lemma range_empty (n : Z) : n <= 0 -> range n = [].
Proof. intros H. unfold range. replace (Z.to_nat n) with 0%nat by lia. reflexivity. Qed.

Lemma flat_map_empty {A B : Type} (g : A -> list B) (xs : list A) :
  (forall x, g x = []) -> flat_map g xs = [].
Proof.
  intros H. induction xs as [|x xs IH]; [reflexivity|].
  cbn. rewrite H, IH. reflexivity.
Qed.

Lemma candidates_indexed f result :
  sidx2 f = Some result -> candidates f = map (index_candidate f) result.
Proof.
  intros H. unfold candidates, index_candidate. rewrite H.
  destruct (extruded f =? 0); reflexivity.
Qed.

Lemma candidates_with_index f result :
  candidates (with_index f result) = map (index_candidate f) result.
Proof. apply (candidates_indexed (with_index f result)). reflexivity. Qed.

Lemma indexed_not_layered f result :
  sidx2 f = Some result -> variant_of f <> ExhaustiveLayered.
Proof.
  intros H. unfold variant_of. rewrite H. destruct (extruded f =? 0); discriminate.
Qed.

Lemma filter_map_candidates {A B : Type} (keep : B -> bool) (g : A -> B) (l : list A) :
  filter keep (map g l) = map g (filter (fun x => keep (g x)) l).
Proof.
  induction l as [|a l IH]; [reflexivity|].
  cbn. destruct (keep (g a)); cbn; rewrite IH; reflexivity.
Qed.

(* ----------------------------------------------------------------- *)
(** *** The codec on ids of the mesh *)

Lemma decode_of_encode (column layer columnCount layerCount : Z) :
  0 <= column < columnCount -> 0 <= layer < layerCount ->
  decode (encode column layer layerCount) layerCount = (column, layer).
Proof.
  intros Hc Hl. unfold decode, encode.
  assert (0 <= column * layerCount) by nia.
  rewrite Z.quot_div_nonneg, Z.rem_mod_nonneg by lia.
  f_equal; symmetry.
  - apply (Z.div_unique _ _ column layer); lia.
  - apply (Z.mod_unique _ _ column layer); lia.
Qed.

(* ----------------------------------------------------------------- *)
(** *** An accepted candidate and the candidates after it *)

(** Candidates that are neither exact hits nor closer than the best
    distance change nothing. *)
Lemma scan_not_closer (l : list candidate) s :
  (forall q, In q l ->
     outside' q /\ (dist' (fst q) <? ref_cell_dist_l1 s)%float = false) ->
  cell (scan' l s) = cell s /\
  found_ref_coords (scan' l s) = found_ref_coords s /\
  found_ref_cell_dist_l1 (scan' l s) = found_ref_cell_dist_l1 s.
Proof.
  revert s. induction l as [|p l IH]; intros s H; [auto|].
  destruct (H p (or_introl eq_refl)) as [Ho Hd].
  destruct (visit_not_closer tolerance try_candidate try_candidate_xtr p s Ho Hd)
    as (Hc & Hf & Hg & Hb).
  rewrite scan_cons, Ho.
  destruct (IH (fst (visit' p s))) as (-> & -> & ->); [|auto].
  intros q Hq. rewrite Hb. apply H. right. exact Hq.
Qed.

(** A candidate accepted under tolerance stays the result of a loop whose
    later candidates are neither exact hits nor closer than it; these are
    tested all the same. *)
Lemma scan_retains (pre : list candidate) (a : candidate) (later : list candidate) s :
  (forall q, In q pre ->
     outside' q /\ (dist' (fst a) <? dist' (fst q))%float = true) ->
  outside' a ->
  (dist' (fst a) <? ref_cell_dist_l1 s)%float = true ->
  (dist' (fst a) <? tolerance)%float = true ->
  (forall q, In q later ->
     outside' q /\ (dist' (fst q) <? dist' (fst a))%float = false) ->
  cell (scan' (pre ++ a :: later) s) = snd a /\
  found_ref_coords (scan' (pre ++ a :: later) s) = coords' (fst a) /\
  found_ref_cell_dist_l1 (scan' (pre ++ a :: later) s) = dist' (fst a) /\
  calls (scan' (pre ++ a :: later) s) = calls s ++ map fst (pre ++ a :: later).
Proof.
  intros Hpre Ha Hs Ht Hlater.
  split; [|split; [|split]].
  4: { apply scan_outside_calls. intros q Hq. apply in_app_or in Hq.
       destruct Hq as [Hq|[<-|Hq]];
         [apply Hpre, Hq | exact Ha | apply Hlater, Hq]. }
  all: rewrite scan_outside_app by (intros q Hq; apply Hpre, Hq).
  all: assert (Hb : (dist' (fst a) <? ref_cell_dist_l1 (scan' pre s))%float = true)
    by (apply scan_above; [exact Hpre | exact Hs]).
  all: destruct (visit_closer tolerance try_candidate try_candidate_xtr
                   a (scan' pre s) Ha Hb Ht) as (Hc & Hf & Hg & Hbest).
  all: rewrite scan_cons, Ha.
  all: destruct (scan_not_closer later (fst (visit' a (scan' pre s))))
        as (E1 & E2 & E3); [rewrite Hbest; exact Hlater|].
  all: rewrite ?E1, ?E2, ?E3; assumption.
Qed.

(** The same of a whole search; in the exhaustive extruded search the
    candidates after the accepted one are those of its column, and no
    candidate of an earlier column is under tolerance. *)
Lemma search_retains f temp found found_dist
    (pre : list candidate) (a : candidate) (later : list candidate) :
  candidates f = pre ++ a :: later ->
  (forall q, In q pre ->
     outside' q /\ (dist' (fst a) <? dist' (fst q))%float = true) ->
  (variant_of f = ExhaustiveLayered ->
   forall q, In q pre -> column_of (fst q) <> column_of (fst a) ->
             (dist' (fst q) <? tolerance)%float = false) ->
  outside' a ->
  (dist' (fst a) <? DBL_MAX)%float = true ->
  (dist' (fst a) <? tolerance)%float = true ->
  (forall q, In q later ->
     (variant_of f = ExhaustiveLayered -> column_of (fst q) = column_of (fst a)) ->
     outside' q /\ (dist' (fst q) <? dist' (fst a))%float = false) ->
  fst (locate_cell' f temp found found_dist) = snd a /\
  found_ref_coords (snd (locate_cell' f temp found found_dist)) = coords' (fst a) /\
  found_ref_cell_dist_l1 (snd (locate_cell' f temp found found_dist)) = dist' (fst a) /\
  (variant_of f <> ExhaustiveLayered ->
   calls (snd (locate_cell' f temp found found_dist)) = map fst (candidates f)).
Proof.
  intros Hsplit Hpre Hcol Ha Hd Ht Hlater.
  destruct (variant_of f) eqn:V.
  4: {
    specialize (Hcol eq_refl).
    destruct (candidates_layered_split f pre a later V Hsplit)
      as (cols1 & c & cols2 & r1 & l & r2 & Hcols & Hr & -> & -> & -> & Hc).
    rewrite locate_cell_columns by exact V. cbn [fst snd]. rewrite Hcols.
    set (s0 := initial temp found found_dist).
    assert (Hearly : forall c' l', In c' cols1 -> In l' (range (n_layers f)) ->
              In (xtr_candidate f c' l')
                (flat_map (fun c => map (xtr_candidate f c) (range (n_layers f))) cols1
                 ++ map (xtr_candidate f c) r1)).
    { intros c' l' Hc' Hl'. apply in_or_app. left. apply in_flat_map.
      exists c'. split; [exact Hc'|]. apply in_map. exact Hl'. }
    assert (Hquiet : forall c' l', In c' cols1 -> In l' (range (n_layers f)) ->
              (dist' (Xtr c' l') <=? 0)%float = false /\
              (dist' (Xtr c' l') <? tolerance)%float = false).
    { intros c' l' Hc' Hl'. split.
      - apply (Hpre _ (Hearly c' l' Hc' Hl')).
      - apply (Hcol _ (Hearly c' l' Hc' Hl')). cbn. congruence. }
    rewrite (columns_app tolerance try_candidate try_candidate_xtr)
      by (reflexivity || exact Hquiet).
    destruct (columns_unaccepted tolerance try_candidate try_candidate_xtr
                f cols1 s0 eq_refl Hquiet) as (E1 & _).
    assert (Hb : (dist' (Xtr c l) <? ref_cell_dist_l1 (columns' f cols1 s0))%float = true).
    { apply (columns_above tolerance try_candidate try_candidate_xtr); [|exact Hd].
      intros c' l' Hc' Hl'. apply (Hpre _ (Hearly c' l' Hc' Hl')). }
    destruct (scan_retains (map (layer_candidate c) r1) (layer_candidate c l)
                (map (layer_candidate c) r2) (columns' f cols1 s0))
      as (F1 & F2 & F3 & _).
    { intros q Hq. apply in_map_iff in Hq. destruct Hq as (l' & <- & Hl').
      apply (Hpre (xtr_candidate f c l')).
      apply in_or_app. right. apply in_map. exact Hl'. }
    { exact Ha. }
    { exact Hb. }
    { exact Ht. }
    { intros q Hq. apply in_map_iff in Hq. destruct Hq as (l' & <- & Hl').
      apply (Hlater (xtr_candidate f c l')); [|reflexivity].
      apply in_or_app. left. apply in_map. exact Hl'. }
    rewrite <- (layers_split f c r1 l r2 Hr) in F1, F2, F3.
    rewrite (columns_stop tolerance try_candidate try_candidate_xtr).
    - cbn [set_cell cell found_ref_coords found_ref_cell_dist_l1].
      rewrite F1, F2, F3. repeat split. intros E. destruct (E eq_refl).
    - rewrite F1. cbn. assert (In l (range (n_layers f))) as Hl
        by (rewrite Hr; apply in_or_app; right; left; reflexivity).
      apply range_bounds in Hl. lia. }
  all: rewrite locate_cell_single_loop by (rewrite V; discriminate); cbn [fst snd].
  all: destruct (start_frame f temp found found_dist) as (_ & Hs & _ & _ & Hk & _).
  all: destruct (scan_retains pre a later (start f temp found found_dist))
        as (E1 & E2 & E3 & E4);
    [ exact Hpre | exact Ha | rewrite Hs; exact Hd | exact Ht
    | intros q Hq; apply (Hlater q Hq); discriminate | ].
  all: rewrite Hsplit.
  all: destruct (finish_frame f (scan' (pre ++ a :: later) (start f temp found found_dist)))
        as (_ & -> & -> & -> & _).
  all: rewrite E4, Hk; auto.
Qed.

(* ----------------------------------------------------------------- *)
(** *** The first acceptable candidate of a loop *)

(** A loop with an acceptable candidate records an acceptable candidate,
    as long as its best distance starts at [DBL_MAX] or not under the
    tolerance. *)
Lemma scan_accepts (l : list candidate) s :
  (ref_cell_dist_l1 s <=? DBL_MAX)%float = true ->
  (ref_cell_dist_l1 s = DBL_MAX \/ (ref_cell_dist_l1 s <? tolerance)%float = false) ->
  (exists q, In q l /\ acceptable' q = true) ->
  exists p, In p l /\ acceptable' p = true /\
    cell (scan' l s) = snd p /\
    found_ref_coords (scan' l s) = coords' (fst p) /\
    found_ref_cell_dist_l1 (scan' l s) = dist' (fst p).
Proof.
  revert s. induction l as [|p l IH]; intros s Hb Hj [q0 [Hq0 Ha0]]; [destruct Hq0|].
  rewrite scan_cons.
  assert (Hrec : forall s', fst (visit' p s) = s' ->
            cell s' = snd p -> found_ref_coords s' = coords' (fst p) ->
            found_ref_cell_dist_l1 s' = dist' (fst p) -> acceptable' p = true ->
            exists p0, In p0 (p :: l) /\ acceptable' p0 = true /\
              cell (scan' l s') = snd p0 /\
              found_ref_coords (scan' l s') = coords' (fst p0) /\
              found_ref_cell_dist_l1 (scan' l s') = dist' (fst p0)).
  { intros s' Es Hc Hf Hg Hp.
    destruct (scan_accepted l s') as [(E1 & E2 & E3)|(q & Hq & E1 & E2 & E3 & Hacc)].
    - rewrite <- Es. apply visit_bounded, Hb.
    - exists p. rewrite E1, E2, E3. repeat split; auto. left. reflexivity.
    - exists q. repeat split; auto. right. exact Hq. }
  assert (Hskip : acceptable' p = false ->
            (ref_cell_dist_l1 (fst (visit' p s)) = DBL_MAX \/
             (ref_cell_dist_l1 (fst (visit' p s)) <? tolerance)%float = false) ->
            exists p0, In p0 (p :: l) /\ acceptable' p0 = true /\
              cell (scan' l (fst (visit' p s))) = snd p0 /\
              found_ref_coords (scan' l (fst (visit' p s))) = coords' (fst p0) /\
              found_ref_cell_dist_l1 (scan' l (fst (visit' p s))) = dist' (fst p0)).
  { intros Hp Hj'.
    destruct (IH (fst (visit' p s))) as (p0 & Hp0 & H); [apply visit_bounded, Hb|exact Hj'| |].
    - destruct Hq0 as [<-|Hq0]; [congruence|]. exists q0. auto.
    - exists p0. split; [right; exact Hp0 | exact H]. }
  destruct (dist' (fst p) <=? 0)%float eqn:E0.
  { exists p.
    destruct (visit_exact tolerance try_candidate try_candidate_xtr p s E0)
      as (-> & -> & ->).
    unfold acceptable, exact_hit. rewrite E0. repeat split; auto. left. reflexivity. }
  destruct (dist' (fst p) <? ref_cell_dist_l1 s)%float eqn:E1.
  - destruct (dist' (fst p) <? tolerance)%float eqn:E2.
    + destruct (visit_closer tolerance try_candidate try_candidate_xtr p s E0 E1 E2)
        as (Hc & Hf & Hg & _).
      apply (Hrec _ eq_refl Hc Hf Hg).
      unfold acceptable, exact_hit, under_tolerance.
      rewrite E0, E2, (DoubleFacts.ltb_leb_trans _ _ _ E1 Hb). reflexivity.
    + apply Hskip.
      * unfold acceptable, exact_hit, under_tolerance.
        rewrite E0, E2, andb_false_r. reflexivity.
      * right. visit_cases. rewrite E0, E1, E2. cbn. exact E2.
  - destruct (visit_not_closer tolerance try_candidate try_candidate_xtr p s E0 E1)
      as (_ & _ & _ & Hr).
    apply Hskip; [|rewrite Hr; exact Hj].
    unfold acceptable, exact_hit, under_tolerance. rewrite E0. cbn [orb].
    destruct (dist' (fst p) <? DBL_MAX)%float eqn:Em; [|reflexivity].
    destruct (dist' (fst p) <? tolerance)%float eqn:Et; [|reflexivity].
    exfalso. destruct Hj as [Hj|Hj].
    + rewrite Hj in E1. congruence.
    + pose proof (DoubleEdge.best_under_tolerance _ _ _ _ Hb Et E1). congruence.
Qed.

(* ----------------------------------------------------------------- *)
(** *** The searches through the index *)

(** An indexed search, given the candidate [tr id] that its loop makes of
    an index id: which tests it invokes and which candidate it reports. *)
Lemma index_search f result temp found found_dist (tr : Z -> candidate) :
  sidx2 f = Some result ->
  candidates f = map tr result ->
  ((forall id, In id result -> exact_hit' (tr id) = false) ->
   calls (snd (locate_cell' f temp found found_dist)) =
     map (fun id => fst (tr id)) result) /\
  (forall pre id post,
     result = pre ++ id :: post ->
     (forall i, In i pre -> exact_hit' (tr i) = false) ->
     exact_hit' (tr id) = true ->
     calls (snd (locate_cell' f temp found found_dist)) =
       map (fun i => fst (tr i)) (pre ++ [id]) /\
     fst (locate_cell' f temp found found_dist) = snd (tr id) /\
     found_ref_coords (snd (locate_cell' f temp found found_dist)) =
       coords' (fst (tr id)) /\
     found_ref_cell_dist_l1 (snd (locate_cell' f temp found found_dist)) =
       dist' (fst (tr id))) /\
  ((exists id, In id result /\ acceptable' (tr id) = true) ->
   exists id, In id result /\ acceptable' (tr id) = true /\
     fst (locate_cell' f temp found found_dist) = snd (tr id) /\
     found_ref_coords (snd (locate_cell' f temp found found_dist)) =
       coords' (fst (tr id)) /\
     found_ref_cell_dist_l1 (snd (locate_cell' f temp found found_dist)) =
       dist' (fst (tr id))) /\
  ((forall id, In id result -> acceptable' (tr id) = false) ->
   fst (locate_cell' f temp found found_dist) = -1 /\
   found_ref_coords (snd (locate_cell' f temp found found_dist)) = found /\
   found_ref_cell_dist_l1 (snd (locate_cell' f temp found found_dist)) = found_dist).
Proof.
  intros Hidx Hc.
  assert (V : variant_of f <> ExhaustiveLayered)
    by (unfold variant_of; rewrite Hidx; destruct (extruded f =? 0); discriminate).
  destruct (start_frame f temp found found_dist) as (_ & Hr & _ & _ & Hk & _).
  split; [|split; [|split]].
  - intros H. rewrite locate_cell_single_loop by exact V. cbn [snd].
    destruct (finish_frame f (scan' (candidates f) (start f temp found found_dist)))
      as (_ & _ & _ & -> & _).
    rewrite scan_outside_calls, Hk, Hc, map_map; [reflexivity|].
    intros q Hq. rewrite Hc in Hq. apply in_map_iff in Hq.
    destruct Hq as (id & <- & Hid). apply (H id Hid).
  - intros pre id post Hsplit Hpre Hid.
    destruct (search_exact tolerance try_candidate try_candidate_xtr f temp found
                found_dist (map tr pre) (tr id) (map tr post)) as (E1 & E2 & E3 & E4).
    + rewrite Hc, Hsplit, map_app. reflexivity.
    + intros q Hq. apply in_map_iff in Hq. destruct Hq as (i & <- & Hi).
      apply (Hpre i Hi).
    + exact Hid.
    + intros E. destruct (V E).
    + rewrite E4, map_app, map_map. auto.
  - intros (id & Hid & Ha).
    rewrite locate_cell_single_loop by exact V. cbn [fst snd].
    destruct (finish_frame f (scan' (candidates f) (start f temp found found_dist)))
      as (_ & -> & -> & _).
    destruct (scan_accepts (candidates f) (start f temp found found_dist))
      as (p & Hp & Hacc & H).
    + rewrite Hr. reflexivity.
    + left. exact Hr.
    + exists (tr id). split; [rewrite Hc; apply in_map, Hid | exact Ha].
    + rewrite Hc in Hp. apply in_map_iff in Hp. destruct Hp as (id' & <- & Hid').
      exists id'. auto.
  - intros H.
    destruct (search_inert f temp found found_dist) as (E1 & E2 & E3 & _); [|auto].
    intros q Hq. rewrite Hc in Hq. apply in_map_iff in Hq.
    destruct Hq as (id & <- & Hid). apply (H id Hid).
Qed.

End AcceptanceFacts.

(* ================================================================= *)
(** ** Properties of the acceptance and of the index ids *)

Section AcceptanceProperties.

Context {RefCoords : Type}.
Variable tolerance : double.
Variable try_candidate : Z -> RefCoords * double.
Variable try_candidate_xtr : Z -> Z -> RefCoords * double.

Local Abbreviation dist' := (dist try_candidate try_candidate_xtr).
Local Abbreviation coords' := (coords try_candidate try_candidate_xtr).

(** C3.  A candidate accepted under tolerance is retained against the
    candidates after it.  Let the search reach a candidate [a] that is no
    exact hit, is closer than every candidate before it and is under
    tolerance, so that it is accepted with its distance as best distance;
    and let each candidate examined after it be no exact hit and be not
    under tolerance, or not closer than [a].  Then [locate_cell] returns
    [a] with its record and its distance, and in the single-loop searches
    the later candidates are tested all the same.  A later candidate that
    is not under tolerance is in fact never closer than [a]: a distance
    below the accepted one is under tolerance.  In the exhaustive extruded
    search [a] is reached when no candidate of an earlier column is under
    tolerance, and the candidates examined after it are those of its
    column. *)
Theorem accepted_candidate_retained
    (f : Function) (temp found : RefCoords) (found_dist : double)
    (pre : list candidate) (a : candidate) (later : list candidate) :
  candidates f = pre ++ a :: later ->
  (forall q, In q pre ->
     (dist' (fst q) <=? 0)%float = false /\
     (dist' (fst a) <? dist' (fst q))%float = true) ->
  (variant_of f = ExhaustiveLayered ->
   forall q, In q pre -> column_of (fst q) <> column_of (fst a) ->
             (dist' (fst q) <? tolerance)%float = false) ->
  (dist' (fst a) <=? 0)%float = false ->
  (dist' (fst a) <? DBL_MAX)%float = true ->
  (dist' (fst a) <? tolerance)%float = true ->
  (forall q, In q later ->
     (variant_of f = ExhaustiveLayered -> column_of (fst q) = column_of (fst a)) ->
     (dist' (fst q) <=? 0)%float = false /\
     ((dist' (fst q) <? tolerance)%float = false \/
      (dist' (fst q) <? dist' (fst a))%float = false)) ->
  let r := locate_cell tolerance try_candidate try_candidate_xtr f temp found found_dist in
  fst r = snd a /\
  found_ref_coords (snd r) = coords' (fst a) /\
  found_ref_cell_dist_l1 (snd r) = dist' (fst a) /\
  (variant_of f <> ExhaustiveLayered -> calls (snd r) = map fst (candidates f)) /\
  (forall q : candidate,
     (dist' (fst q) <? tolerance)%float = false ->
     (dist' (fst q) <? dist' (fst a))%float = false).
Proof.
  intros Hsplit Hpre Hcol Ha Hd Ht Hlater. cbv zeta.
  assert (Hfar : forall q : candidate,
            (dist' (fst q) <? tolerance)%float = false ->
            (dist' (fst q) <? dist' (fst a))%float = false).
  { intros q Hn. destruct (dist' (fst q) <? dist' (fst a))%float eqn:E; [|reflexivity].
    rewrite (DoubleFacts.ltb_trans _ _ _ E Ht) in Hn. discriminate Hn. }
  destruct (search_retains tolerance try_candidate try_candidate_xtr
              f temp found found_dist pre a later Hsplit Hpre Hcol Ha Hd Ht)
    as (E1 & E2 & E3 & E4).
  { intros q Hq Hsame. destruct (Hlater q Hq Hsame) as [Ho [Hn|Hn]].
    - split; [exact Ho | apply Hfar, Hn].
    - split; [exact Ho | exact Hn]. }
  split; [exact E1 | split; [exact E2 | split; [exact E3 | split; [exact E4 | exact Hfar]]]].
Qed.

(** C6.  In the indexed flat search the containment test is invoked on
    the index ids minus 1, in the order of the index: on all of them when
    none is an exact hit, and up to the first exact hit otherwise, which is
    reported as its id minus 1 with the record and the distance of that
    cell.  When the test of some id minus 1 gives an acceptable distance
    (an exact hit, or under the tolerance and below [DBL_MAX]), the cell
    reported is such an id minus 1, with the record and the distance of
    that cell; when none does, [-1] is reported and the output buffers are
    left alone.  In the indexed extruded search the same holds with the
    test invoked on the column [id / n_layers] and the layer
    [id % n_layers] of each id (C's truncating division and remainder,
    the decoding of the layered id codec), and with the id itself
    reported. *)
Theorem index_ids_translation
    (f : Function) (result : list Z) (temp found : RefCoords) (found_dist : double) :
  sidx2 f = Some result ->
  let r := locate_cell tolerance try_candidate try_candidate_xtr f temp found found_dist in
  (extruded f = 0 ->
   ((forall id, In id result -> (snd (try_candidate (id - 1)) <=? 0)%float = false) ->
    calls (snd r) = map (fun id => Flat (id - 1)) result) /\
   (forall pre id post,
      result = pre ++ id :: post ->
      (forall i, In i pre -> (snd (try_candidate (i - 1)) <=? 0)%float = false) ->
      (snd (try_candidate (id - 1)) <=? 0)%float = true ->
      calls (snd r) = map (fun i => Flat (i - 1)) (pre ++ [id]) /\
      fst r = id - 1 /\
      found_ref_coords (snd r) = fst (try_candidate (id - 1)) /\
      found_ref_cell_dist_l1 (snd r) = snd (try_candidate (id - 1))) /\
   ((exists id, In id result /\
       acceptable_distance tolerance (snd (try_candidate (id - 1))) = true) ->
    exists id, In id result /\
      acceptable_distance tolerance (snd (try_candidate (id - 1))) = true /\
      fst r = id - 1 /\
      found_ref_coords (snd r) = fst (try_candidate (id - 1)) /\
      found_ref_cell_dist_l1 (snd r) = snd (try_candidate (id - 1))) /\
   ((forall id, In id result ->
       acceptable_distance tolerance (snd (try_candidate (id - 1))) = false) ->
    fst r = -1 /\ found_ref_coords (snd r) = found /\
    found_ref_cell_dist_l1 (snd r) = found_dist)) /\
  (extruded f <> 0 ->
   ((forall id, In id result ->
       (snd (try_candidate_xtr (Z.quot id (n_layers f))
                               (Z.rem id (n_layers f))) <=? 0)%float = false) ->
    calls (snd r) =
      map (fun id => Xtr (Z.quot id (n_layers f)) (Z.rem id (n_layers f)))
        result) /\
   (forall pre id post,
      result = pre ++ id :: post ->
      (forall i, In i pre ->
         (snd (try_candidate_xtr (Z.quot i (n_layers f))
                                 (Z.rem i (n_layers f))) <=? 0)%float = false) ->
      (snd (try_candidate_xtr (Z.quot id (n_layers f))
                              (Z.rem id (n_layers f))) <=? 0)%float = true ->
      calls (snd r) =
        map (fun i => Xtr (Z.quot i (n_layers f)) (Z.rem i (n_layers f)))
          (pre ++ [id]) /\
      fst r = id /\
      found_ref_coords (snd r) =
        fst (try_candidate_xtr (Z.quot id (n_layers f))
                               (Z.rem id (n_layers f))) /\
      found_ref_cell_dist_l1 (snd r) =
        snd (try_candidate_xtr (Z.quot id (n_layers f))
                               (Z.rem id (n_layers f)))) /\
   ((exists id, In id result /\
       acceptable_distance tolerance
         (snd (try_candidate_xtr (Z.quot id (n_layers f))
                                 (Z.rem id (n_layers f)))) = true) ->
    exists id, In id result /\
      acceptable_distance tolerance
        (snd (try_candidate_xtr (Z.quot id (n_layers f))
                                (Z.rem id (n_layers f)))) = true /\
      fst r = id /\
      found_ref_coords (snd r) =
        fst (try_candidate_xtr (Z.quot id (n_layers f))
                               (Z.rem id (n_layers f))) /\
      found_ref_cell_dist_l1 (snd r) =
        snd (try_candidate_xtr (Z.quot id (n_layers f))
                               (Z.rem id (n_layers f)))) /\
   ((forall id, In id result ->
       acceptable_distance tolerance
         (snd (try_candidate_xtr (Z.quot id (n_layers f))
                                 (Z.rem id (n_layers f)))) = false) ->
    fst r = -1 /\ found_ref_coords (snd r) = found /\
    found_ref_cell_dist_l1 (snd r) = found_dist)).
Proof.
  intros Hidx. cbv zeta. split; intros He.
  - assert (Hc : candidates f = map (fun id => (Flat (id - 1), id - 1)) result)
      by (unfold candidates; rewrite Hidx, He; reflexivity).
    exact (index_search tolerance try_candidate try_candidate_xtr f result
             temp found found_dist (fun id => (Flat (id - 1), id - 1)) Hidx Hc).
  - assert (Hc : candidates f =
                 map (fun id => (Xtr (Z.quot id (n_layers f))
                                     (Z.rem id (n_layers f)), id)) result).
    { unfold candidates. rewrite Hidx.
      destruct (Z.eqb_spec (extruded f) 0); [contradiction|reflexivity]. }
    exact (index_search tolerance try_candidate try_candidate_xtr f result
             temp found found_dist
             (fun id => (Xtr (Z.quot id (n_layers f))
                             (Z.rem id (n_layers f)), id)) Hidx Hc).
Qed.

End AcceptanceProperties.

(* ----------------------------------------------------------------- *)
(** *** These properties at concrete searches *)

(** C3, on four cells at distances 0.5, 0.125, 2 and 0.1875 under the
    tolerance 0.25: cell 1 is accepted, and cells 2 (not under tolerance)
    and 3 (under tolerance, not closer), tested after it, leave it in
    place. *)
Lemma accepted_candidate_retained_sample :
  fst (locate_cell tol near_cell_1 no_xtr_test (exhaustive_flat 4)
         temp0 found0 dist0) = 1 /\
  found_ref_coords (snd (locate_cell tol near_cell_1 no_xtr_test
                           (exhaustive_flat 4) temp0 found0 dist0)) = Flat 1 /\
  found_ref_cell_dist_l1 (snd (locate_cell tol near_cell_1 no_xtr_test
                                 (exhaustive_flat 4) temp0 found0 dist0)) = 0.125%float /\
  calls (snd (locate_cell tol near_cell_1 no_xtr_test (exhaustive_flat 4)
                temp0 found0 dist0)) = [Flat 0; Flat 1; Flat 2; Flat 3].
Proof.
  destruct (accepted_candidate_retained tol near_cell_1 no_xtr_test
              (exhaustive_flat 4) temp0 found0 dist0
              [(Flat 0, 0)] (Flat 1, 1) [(Flat 2, 2); (Flat 3, 3)])
    as (E1 & E2 & E3 & E4 & _).
  - reflexivity.
  - each_candidate.
  - intros V. discriminate V.
  - reflexivity.
  - reflexivity.
  - reflexivity.
  - intros q [<-|[<-|[]]] _.
    + split; [reflexivity | left; reflexivity].
    + split; [reflexivity | right; reflexivity].
  - split; [exact E1 | split; [exact E2 | split; [exact E3|]]].
    apply E4. discriminate.
Defined.

(** C6, on an index that yields the ids 3 and 1 of a flat mesh with the
    point within tolerance of cell 2, and on an index that yields the ids
    4, 5 and 3 of two columns of three layers with the point inside column
    1, layer 2. *)
Lemma index_ids_translation_sample :
  (calls (snd (locate_cell tol near_cell_2 no_xtr_test
                 (indexed_flat 3 [3; 1]) temp0 found0 dist0)) = [Flat 2; Flat 0] /\
   exists id, In id [3; 1] /\
     acceptable_distance tol (snd (near_cell_2 (id - 1))) = true /\
     fst (locate_cell tol near_cell_2 no_xtr_test
            (indexed_flat 3 [3; 1]) temp0 found0 dist0) = id - 1 /\
     found_ref_coords (snd (locate_cell tol near_cell_2 no_xtr_test
            (indexed_flat 3 [3; 1]) temp0 found0 dist0)) = fst (near_cell_2 (id - 1)) /\
     found_ref_cell_dist_l1 (snd (locate_cell tol near_cell_2 no_xtr_test
            (indexed_flat 3 [3; 1]) temp0 found0 dist0)) = snd (near_cell_2 (id - 1))) /\
  (calls (snd (locate_cell tol no_flat_test inside_column_1
                 (indexed_xtr 2 3 [4; 5; 3]) temp0 found0 dist0)) = [Xtr 1 1; Xtr 1 2] /\
   fst (locate_cell tol no_flat_test inside_column_1
          (indexed_xtr 2 3 [4; 5; 3]) temp0 found0 dist0) = 5 /\
   found_ref_coords (snd (locate_cell tol no_flat_test inside_column_1
          (indexed_xtr 2 3 [4; 5; 3]) temp0 found0 dist0)) = Xtr 1 2 /\
   found_ref_cell_dist_l1 (snd (locate_cell tol no_flat_test inside_column_1
          (indexed_xtr 2 3 [4; 5; 3]) temp0 found0 dist0)) = (-1)%float).
Proof.
  split.
  - destruct (proj1 (index_ids_translation tol near_cell_2 no_xtr_test
                       (indexed_flat 3 [3; 1]) [3; 1] temp0 found0 dist0 eq_refl)
                eq_refl) as (Hcalls & _ & Hacc & _).
    split.
    + apply Hcalls. intros id [<-|[<-|[]]]; reflexivity.
    + apply Hacc. exists 3. split; [left; reflexivity | reflexivity].
  - assert (E : extruded (indexed_xtr 2 3 [4; 5; 3]) <> 0) by discriminate.
    destruct (proj2 (index_ids_translation tol no_flat_test inside_column_1
                       (indexed_xtr 2 3 [4; 5; 3]) [4; 5; 3] temp0 found0 dist0
                       eq_refl) E) as (_ & Hhit & _).
    apply (Hhit [4] 5 [3]).
    + reflexivity.
    + intros i [<-|[]]. reflexivity.
    + reflexivity.
Defined.

(* ================================================================= *)
(** ** Further properties of [locate_cell] *)

Section FurtherProperties.

Context {RefCoords : Type}.
Variable tolerance : double.
Variable try_candidate : Z -> RefCoords * double.
Variable try_candidate_xtr : Z -> Z -> RefCoords * double.

Local Abbreviation dist' := (dist try_candidate try_candidate_xtr).
Local Abbreviation coords' := (coords try_candidate try_candidate_xtr).
Local Abbreviation exact_hit' := (exact_hit try_candidate try_candidate_xtr).
Local Abbreviation acceptable' :=
  (acceptable tolerance try_candidate try_candidate_xtr).
Local Abbreviation undefined' := (undefined try_candidate try_candidate_xtr).

(** X1.  A search without candidates (an index that yields no id, a mesh
    without columns, an extruded mesh without layers) returns [-1], invokes
    no containment test and leaves the output buffers alone. *)
Theorem empty_search_not_found
    (f : Function) (temp found : RefCoords) (found_dist : double) :
  sidx2 f = Some [] \/
  (sidx2 f = None /\ (n_cols f <= 0 \/ (extruded f <> 0 /\ n_layers f <= 0))) ->
  let r := locate_cell tolerance try_candidate try_candidate_xtr f temp found found_dist in
  fst r = -1 /\ calls (snd r) = [] /\
  found_ref_coords (snd r) = found /\
  found_ref_cell_dist_l1 (snd r) = found_dist.
Proof.
  intros H. cbv zeta.
  assert (E : candidates f = []).
  { unfold candidates. destruct H as [->|[-> [H|[He H]]]].
    - destruct (extruded f =? 0); reflexivity.
    - rewrite (range_empty _ H). destruct (extruded f =? 0); reflexivity.
    - destruct (Z.eqb_spec (extruded f) 0); [contradiction|].
      apply flat_map_empty. intros c. rewrite (range_empty _ H). reflexivity. }
  destruct (search_inert tolerance try_candidate try_candidate_xtr f temp found found_dist)
    as (E1 & E2 & E3 & E4).
  { rewrite E. intros q []. }
  rewrite E in E4. auto.
Qed.

(** X2.  Whatever [locate_cell] reports was acceptable: after any search
    either [-1] is returned and the output buffers are as the caller passed
    them, or the cell returned is a candidate, the buffers hold its record
    and its distance, and that distance is [<= 0] or strictly below both
    [tolerance] and [DBL_MAX]. *)
Theorem reported_cell_is_acceptable
    (f : Function) (temp found : RefCoords) (found_dist : double) :
  let r := locate_cell tolerance try_candidate try_candidate_xtr f temp found found_dist in
  (fst r = -1 /\ found_ref_coords (snd r) = found /\
   found_ref_cell_dist_l1 (snd r) = found_dist) \/
  (exists p, In p (candidates f) /\ fst r = snd p /\
   found_ref_coords (snd r) = coords' (fst p) /\
   found_ref_cell_dist_l1 (snd r) = dist' (fst p) /\
   ((found_ref_cell_dist_l1 (snd r) <=? 0)%float = true \/
    ((found_ref_cell_dist_l1 (snd r) <? DBL_MAX)%float = true /\
     (found_ref_cell_dist_l1 (snd r) <? tolerance)%float = true))).
Proof.
  cbv zeta.
  destruct (search_accepted tolerance try_candidate try_candidate_xtr
              f temp found found_dist) as [H|(p & Hp & E1 & E2 & E3 & Ha)];
    [left; exact H|].
  right. exists p. rewrite E3. repeat split; try assumption.
  unfold acceptable, exact_hit, under_tolerance in Ha.
  apply orb_true_iff in Ha. destruct Ha as [Ha|Ha]; [left; exact Ha|].
  apply andb_true_iff in Ha. right. exact Ha.
Qed.

(** X3.  When no candidate is reported under a negative id, [locate_cell]
    returns [-1] exactly when no candidate is acceptable, that is when
    every candidate's distance fails [d <= 0] and fails one of
    [d < DBL_MAX] and [d < tolerance]; this holds in the four variants. *)
Theorem not_found_iff_none_acceptable
    (f : Function) (temp found : RefCoords) (found_dist : double) :
  (forall q, In q (candidates f) -> 0 <= snd q) ->
  fst (locate_cell tolerance try_candidate try_candidate_xtr f temp found found_dist) = -1
  <->
  (forall q, In q (candidates f) ->
     (dist' (fst q) <=? 0)%float = false /\
     ((dist' (fst q) <? DBL_MAX)%float = false \/
      (dist' (fst q) <? tolerance)%float = false)).
Proof.
  intros Hid. split.
  - intros Hret q Hq.
    apply (acceptable_false tolerance try_candidate try_candidate_xtr).
    apply (search_rejects tolerance try_candidate try_candidate_xtr
             f temp found found_dist); auto.
    intros x Hx. specialize (Hid x Hx). lia.
  - intros H.
    apply (search_inert tolerance try_candidate try_candidate_xtr f temp found found_dist).
    intros q Hq. destruct (H q Hq) as [H0 H1].
    unfold acceptable, exact_hit, under_tolerance. rewrite H0. cbn [orb].
    apply andb_false_iff. exact H1.
Qed.

(** X4.  The order in which the index yields its ids does not matter for
    a point inside exactly one candidate: if one id of the index is the
    only one whose candidate is an exact hit, then for every reordering of
    the ids the indexed search returns that candidate, with its record and
    its distance. *)
Theorem interior_point_found_in_any_order
    (f : Function) (result result' : list Z) (id : Z)
    (temp found : RefCoords) (found_dist : double) :
  sidx2 f = Some result ->
  Permutation result result' ->
  In id result ->
  exact_hit' (index_candidate f id) = true ->
  (forall id', In id' result -> exact_hit' (index_candidate f id') = true -> id' = id) ->
  let r := locate_cell tolerance try_candidate try_candidate_xtr
             (with_index f result') temp found found_dist in
  fst r = snd (index_candidate f id) /\
  found_ref_coords (snd r) = coords' (fst (index_candidate f id)) /\
  found_ref_cell_dist_l1 (snd r) = dist' (fst (index_candidate f id)).
Proof.
  intros Hidx Hperm Hin Hex Huniq. cbv zeta.
  destruct (first_exact_hit_split try_candidate try_candidate_xtr
              (candidates (with_index f result')))
    as (pre & q & post & Hsplit & Hpre & Hq).
  { exists (index_candidate f id). split; [|exact Hex].
    rewrite candidates_with_index. apply in_map.
    apply (Permutation_in _ Hperm Hin). }
  assert (Hqin : In q (candidates (with_index f result')))
    by (rewrite Hsplit; apply in_or_app; right; left; reflexivity).
  rewrite candidates_with_index in Hqin. apply in_map_iff in Hqin.
  destruct Hqin as (id' & <- & Hid').
  apply (Permutation_in _ (Permutation_sym Hperm)) in Hid'.
  rewrite <- (Huniq id' Hid' Hq).
  destruct (search_exact tolerance try_candidate try_candidate_xtr
              (with_index f result') temp found found_dist pre
              (index_candidate f id') post Hsplit Hpre Hq) as (E1 & E2 & E3 & _).
  { intros V. exfalso. revert V.
    apply (indexed_not_layered (with_index f result') result'). reflexivity. }
  auto.
Qed.

(** X5.  An exhaustive search returns [-1] or the id of a cell of the mesh
    (from 0 to the number of cells), and then the output buffers hold what
    the containment test computes for that very cell: for the flat test on
    the id, for the extruded test on the column and layer the id decodes
    to, which are a column and a layer of the mesh. *)
Theorem exhaustive_result_in_mesh
    (f : Function) (temp found : RefCoords) (found_dist : double) :
  sidx2 f = None ->
  let r := locate_cell tolerance try_candidate try_candidate_xtr f temp found found_dist in
  (fst r = -1 /\ found_ref_coords (snd r) = found /\
   found_ref_cell_dist_l1 (snd r) = found_dist) \/
  (0 <= fst r < cell_count f /\
   (extruded f = 0 ->
    found_ref_coords (snd r) = fst (try_candidate (fst r)) /\
    found_ref_cell_dist_l1 (snd r) = snd (try_candidate (fst r))) /\
   (extruded f <> 0 ->
    0 <= fst (decode (fst r) (n_layers f)) < n_cols f /\
    0 <= snd (decode (fst r) (n_layers f)) < n_layers f /\
    found_ref_coords (snd r) =
      fst (try_candidate_xtr (fst (decode (fst r) (n_layers f)))
                             (snd (decode (fst r) (n_layers f)))) /\
    found_ref_cell_dist_l1 (snd r) =
      snd (try_candidate_xtr (fst (decode (fst r) (n_layers f)))
                             (snd (decode (fst r) (n_layers f)))))).
Proof.
  intros Hidx. cbv zeta.
  destruct (search_written tolerance try_candidate try_candidate_xtr
              f temp found found_dist) as [H|(p & Hp & E1 & E2 & E3)];
    [left; exact H|].
  right. rewrite E1, E2, E3. unfold candidates, cell_count in *. rewrite Hidx in Hp.
  destruct (Z.eqb_spec (extruded f) 0) as [He|He].
  - apply in_map_iff in Hp. destruct Hp as (c & <- & Hc).
    apply range_bounds in Hc. cbn. split; [exact Hc|]. split; [auto|contradiction].
  - apply in_flat_map in Hp. destruct Hp as (c & Hc & Hp).
    apply in_map_iff in Hp. destruct Hp as (l & <- & Hl).
    apply range_bounds in Hc. apply range_bounds in Hl.
    cbn [xtr_candidate fst snd].
    rewrite (decode_of_encode c l (n_cols f) (n_layers f) Hc Hl). cbn [fst snd].
    split; [unfold encode; nia|]. split; [contradiction|]. auto.
Qed.

(** X6.  The cell returned and the containment tests invoked do not depend
    on what the caller's buffers hold before the call; and unless both
    searches leave their output buffers as they were, they leave the same
    record and the same distance in them. *)
Theorem result_independent_of_buffers
    (f : Function) (temp1 found1 temp2 found2 : RefCoords)
    (found_dist1 found_dist2 : double) :
  let r1 := locate_cell tolerance try_candidate try_candidate_xtr
              f temp1 found1 found_dist1 in
  let r2 := locate_cell tolerance try_candidate try_candidate_xtr
              f temp2 found2 found_dist2 in
  fst r1 = fst r2 /\ calls (snd r1) = calls (snd r2) /\
  ((found_ref_coords (snd r1) = found1 /\ found_ref_cell_dist_l1 (snd r1) = found_dist1 /\
    found_ref_coords (snd r2) = found2 /\ found_ref_cell_dist_l1 (snd r2) = found_dist2) \/
   (found_ref_coords (snd r1) = found_ref_coords (snd r2) /\
    found_ref_cell_dist_l1 (snd r1) = found_ref_cell_dist_l1 (snd r2))).
Proof.
  cbv zeta.
  destruct (start_frame f temp1 found1 found_dist1) as (Hc1 & Hr1 & Hf1 & Hg1 & Hk1 & _).
  destruct (start_frame f temp2 found2 found_dist2) as (Hc2 & Hr2 & Hf2 & Hg2 & Hk2 & _).
  destruct (variant_of f) eqn:V.
  4: {
    rewrite !locate_cell_columns by exact V. cbn [fst snd].
    apply (columns_alike tolerance try_candidate try_candidate_xtr f (range (n_cols f))
             (initial temp1 found1 found_dist1) (initial temp2 found2 found_dist2)
             found1 found2 found_dist1 found_dist2 eq_refl eq_refl eq_refl).
    left. cbn. auto. }
  all: rewrite !locate_cell_single_loop by (rewrite V; discriminate); cbn [fst snd].
  all: destruct (scan_alike tolerance try_candidate try_candidate_xtr (candidates f)
                   (start f temp1 found1 found_dist1) (start f temp2 found2 found_dist2)
                   found1 found2 found_dist1 found_dist2)
        as (E1 & _ & E2 & E3);
    [congruence | congruence | congruence | left; auto |].
  all: destruct (finish_frame f (scan tolerance try_candidate try_candidate_xtr
                   (candidates f) (start f temp1 found1 found_dist1)))
        as (_ & -> & -> & -> & _).
  all: destruct (finish_frame f (scan tolerance try_candidate try_candidate_xtr
                   (candidates f) (start f temp2 found2 found_dist2)))
        as (_ & -> & -> & -> & _).
  all: auto.
Qed.

(** X7.  In each of the four variants the containment tests [locate_cell]
    invokes are those of an initial segment of its candidates, in iteration
    order: no test is invoked on anything else, none is repeated, and none
    is skipped before the last one. *)
Theorem tests_follow_the_candidates
    (f : Function) (temp found : RefCoords) (found_dist : double) :
  exists n,
    calls (snd (locate_cell tolerance try_candidate try_candidate_xtr
                  f temp found found_dist)) =
    map fst (firstn n (candidates f)).
Proof. apply search_calls. Qed.

(** X8.  In the three single-loop variants a candidate under tolerance
    does not end the search: without exact hit every candidate is tested. *)
Theorem single_loop_tests_all
    (f : Function) (temp found : RefCoords) (found_dist : double) :
  variant_of f <> ExhaustiveLayered ->
  (forall q, In q (candidates f) -> exact_hit' q = false) ->
  calls (snd (locate_cell tolerance try_candidate try_candidate_xtr
                f temp found found_dist)) =
  map fst (candidates f).
Proof.
  intros V H. rewrite locate_cell_single_loop by exact V. cbn [snd].
  destruct (finish_frame f (scan tolerance try_candidate try_candidate_xtr
              (candidates f) (start f temp found found_dist)))
    as (_ & _ & _ & -> & _).
  rewrite scan_outside_calls by exact H.
  destruct (start_frame f temp found found_dist) as (_ & _ & _ & _ & -> & _).
  reflexivity.
Qed.

(** X9.  An id of an extruded mesh of [columnCount] columns of
    [layerCount > 0] layers decodes to a column and a layer of the mesh,
    and these encode the id again. *)
Theorem encode_decode (id columnCount layerCount : Z) :
  0 < layerCount ->
  0 <= id < columnCount * layerCount ->
  0 <= fst (decode id layerCount) < columnCount /\
  0 <= snd (decode id layerCount) < layerCount /\
  encode (fst (decode id layerCount)) (snd (decode id layerCount)) layerCount = id.
Proof.
  intros HL H. unfold decode, encode. cbn [fst snd].
  rewrite Z.quot_div_nonneg, Z.rem_mod_nonneg by lia.
  pose proof (Z.div_mod id layerCount ltac:(lia)) as Hd.
  pose proof (Z.mod_pos_bound id layerCount ltac:(lia)) as Hm.
  assert (0 <= id / layerCount) by (apply Z.div_pos; lia).
  repeat split; try lia.
  apply Z.div_lt_upper_bound; nia.
Qed.

(** X10.  Index ids whose candidate's distance is a NaN are tested and
    ignored: an indexed search returns the same cell and leaves the same
    record and distance in the output buffers as the search on the index
    without those ids. *)
Theorem undefined_distances_ignored
    (f : Function) (result : list Z) (temp found : RefCoords) (found_dist : double) :
  sidx2 f = Some result ->
  let r := locate_cell tolerance try_candidate try_candidate_xtr f temp found found_dist in
  let r' := locate_cell tolerance try_candidate try_candidate_xtr
              (with_index f
                 (filter (fun id => negb (undefined' (index_candidate f id))) result))
              temp found found_dist in
  fst r = fst r' /\
  found_ref_coords (snd r) = found_ref_coords (snd r') /\
  found_ref_cell_dist_l1 (snd r) = found_ref_cell_dist_l1 (snd r').
Proof.
  intros Hidx. cbv zeta.
  set (kept := filter (fun id => negb (undefined' (index_candidate f id))) result).
  rewrite (locate_cell_single_loop tolerance try_candidate try_candidate_xtr f)
    by (apply (indexed_not_layered f result Hidx)).
  rewrite (locate_cell_single_loop tolerance try_candidate try_candidate_xtr
             (with_index f kept))
    by (apply (indexed_not_layered (with_index f kept) kept); reflexivity).
  cbn [fst snd].
  rewrite candidates_with_index, (candidates_indexed f result Hidx).
  unfold kept.
  rewrite <- (filter_map_candidates (fun q => negb (undefined' q)) (index_candidate f)).
  destruct (start_frame f temp found found_dist) as (Hc1 & Hr1 & Hf1 & Hg1 & _).
  destruct (start_frame (with_index f kept) temp found found_dist)
    as (Hc2 & Hr2 & Hf2 & Hg2 & _).
  fold kept.
  destruct (scan_skips_undefined tolerance try_candidate try_candidate_xtr
              (map (index_candidate f) result)
              (start f temp found found_dist)
              (start (with_index f kept) temp found found_dist))
    as (E1 & E2 & E3); try congruence.
  repeat match goal with
         | |- context [finish ?g ?s] =>
             let H := fresh in
             pose proof (finish_frame g s) as H;
             destruct H as (_ & -> & -> & _)
         end.
  auto.
Qed.

(** X11.  The exhaustive extruded search returns a cell of the first
    column that has an acceptable layer (an exact hit, or a distance below
    [DBL_MAX] and [tolerance]), one whose layer is acceptable, and it
    tests every layer of the columns before it, an initial segment of the
    layers of that column and no layer of a later column. *)
Theorem first_acceptable_column_wins
    (f : Function) (temp found : RefCoords) (found_dist : double) (c l : Z) :
  sidx2 f = None -> extruded f <> 0 ->
  0 <= c < n_cols f -> 0 <= l < n_layers f ->
  acceptable' (xtr_candidate f c l) = true ->
  (forall c' l', 0 <= c' < c -> 0 <= l' < n_layers f ->
     acceptable' (xtr_candidate f c' l') = false) ->
  let r := locate_cell tolerance try_candidate try_candidate_xtr f temp found found_dist in
  exists l0 n,
    0 <= l0 < n_layers f /\
    acceptable' (xtr_candidate f c l0) = true /\
    fst r = encode c l0 (n_layers f) /\
    found_ref_coords (snd r) = fst (try_candidate_xtr c l0) /\
    found_ref_cell_dist_l1 (snd r) = snd (try_candidate_xtr c l0) /\
    calls (snd r) =
      flat_map (fun c' => map (Xtr c') (range (n_layers f))) (range c)
      ++ map (Xtr c) (firstn n (range (n_layers f))).
Proof.
  intros Hidx He Hc Hl Ha Hbefore. cbv zeta.
  assert (V : variant_of f = ExhaustiveLayered).
  { unfold variant_of. rewrite Hidx.
    destruct (Z.eqb_spec (extruded f) 0); [contradiction|reflexivity]. }
  destruct (search_first_column tolerance try_candidate try_candidate_xtr
              f temp found found_dist c l V) as (l0 & n & Hl0 & H);
    try (apply range_bounds; assumption); try assumption.
  { intros c' l' Hc' Hl'. apply Hbefore; apply range_bounds; assumption. }
  exists l0, n. split; [apply range_bounds, Hl0 | exact H].
Qed.

(** X12.  Under a tolerance that is zero, negative or a NaN only exact
    hits are reported: [locate_cell] returns [-1] and leaves the output
    buffers alone, or it returns a candidate whose distance is [<= 0]. *)
Theorem nonpositive_tolerance_only_exact_hits
    (f : Function) (temp found : RefCoords) (found_dist : double) :
  (tolerance <=? 0)%float = true \/ is_nan tolerance = true ->
  let r := locate_cell tolerance try_candidate try_candidate_xtr f temp found found_dist in
  (fst r = -1 /\ found_ref_coords (snd r) = found /\
   found_ref_cell_dist_l1 (snd r) = found_dist) \/
  (exists p, In p (candidates f) /\ fst r = snd p /\
   found_ref_coords (snd r) = coords' (fst p) /\
   found_ref_cell_dist_l1 (snd r) = dist' (fst p) /\
   (dist' (fst p) <=? 0)%float = true).
Proof.
  intros Ht. cbv zeta.
  destruct (search_accepted tolerance try_candidate try_candidate_xtr
              f temp found found_dist) as [H|(p & Hp & E1 & E2 & E3 & Ha)];
    [left; exact H|].
  right. exists p. repeat split; try assumption.
  unfold acceptable, exact_hit, under_tolerance in Ha.
  apply orb_true_iff in Ha. destruct Ha as [Ha|Ha]; [exact Ha|].
  apply andb_true_iff in Ha. destruct Ha as [_ Ha].
  destruct Ht as [Ht|Ht].
  - apply (DoubleEdge.nothing_under_nonpositive _ _ Ht Ha).
  - exfalso. revert Ha Ht. apply DoubleEdge.below_nan.
Qed.

End FurtherProperties.

(* ----------------------------------------------------------------- *)
(** *** The further properties at concrete searches *)

(** X1, on an exhaustive flat search of a mesh without cells. *)
Lemma empty_search_not_found_sample :
  fst (locate_cell tol far no_xtr_test (exhaustive_flat 0) temp0 found0 dist0) = -1 /\
  calls (snd (locate_cell tol far no_xtr_test (exhaustive_flat 0)
                temp0 found0 dist0)) = [] /\
  found_ref_coords (snd (locate_cell tol far no_xtr_test (exhaustive_flat 0)
                           temp0 found0 dist0)) = found0 /\
  found_ref_cell_dist_l1 (snd (locate_cell tol far no_xtr_test (exhaustive_flat 0)
                                 temp0 found0 dist0)) = dist0.
Proof.
  apply (empty_search_not_found tol far no_xtr_test (exhaustive_flat 0)
           temp0 found0 dist0).
  right. split; [reflexivity|]. left. cbn. lia.
Defined.

(** X3, on two cells beyond the tolerance. *)
Lemma not_found_iff_none_acceptable_sample :
  fst (locate_cell tol far no_xtr_test (exhaustive_flat 2) temp0 found0 dist0) = -1
  <->
  (forall q, In q (candidates (exhaustive_flat 2)) ->
     (dist far no_xtr_test (fst q) <=? 0)%float = false /\
     ((dist far no_xtr_test (fst q) <? DBL_MAX)%float = false \/
      (dist far no_xtr_test (fst q) <? tol)%float = false)).
Proof.
  apply (not_found_iff_none_acceptable tol far no_xtr_test (exhaustive_flat 2)
           temp0 found0 dist0).
  intros q Hq. vm_compute in Hq. destruct Hq as [<-|[<-|[]]]; cbn; lia.
Defined.

(** X4, on the ids 1, 2, 3 yielded in the opposite order, the point inside
    cell 1 (id 2) and within tolerance of cell 0. *)
Lemma interior_point_found_in_any_order_sample :
  fst (locate_cell tol inside_cell_1 no_xtr_test
         (with_index (indexed_flat 3 [1; 2; 3]) [3; 2; 1]) temp0 found0 dist0) = 1 /\
  found_ref_coords (snd (locate_cell tol inside_cell_1 no_xtr_test
         (with_index (indexed_flat 3 [1; 2; 3]) [3; 2; 1]) temp0 found0 dist0)) = Flat 1 /\
  found_ref_cell_dist_l1 (snd (locate_cell tol inside_cell_1 no_xtr_test
         (with_index (indexed_flat 3 [1; 2; 3]) [3; 2; 1]) temp0 found0 dist0)) = (-1)%float.
Proof.
  apply (interior_point_found_in_any_order tol inside_cell_1 no_xtr_test
           (indexed_flat 3 [1; 2; 3]) [1; 2; 3] [3; 2; 1] 2 temp0 found0 dist0).
  - reflexivity.
  - exact (Permutation_rev [1; 2; 3]).
  - right. left. reflexivity.
  - reflexivity.
  - intros id' Hin He.
    destruct Hin as [<-|[<-|[<-|[]]]];
      [vm_compute in He; discriminate He | reflexivity
      | vm_compute in He; discriminate He].
Defined.

(** X5, on the exhaustive extruded search of two columns of three layers
    that finds the point in column 1, layer 2. *)
Lemma exhaustive_result_in_mesh_sample :
  (fst (locate_cell tol no_flat_test inside_column_1 (exhaustive_xtr 2 3)
          temp0 found0 dist0) = -1 /\
   found_ref_coords (snd (locate_cell tol no_flat_test inside_column_1
          (exhaustive_xtr 2 3) temp0 found0 dist0)) = found0 /\
   found_ref_cell_dist_l1 (snd (locate_cell tol no_flat_test inside_column_1
          (exhaustive_xtr 2 3) temp0 found0 dist0)) = dist0) \/
  (0 <= fst (locate_cell tol no_flat_test inside_column_1 (exhaustive_xtr 2 3)
               temp0 found0 dist0) < cell_count (exhaustive_xtr 2 3) /\
   (extruded (exhaustive_xtr 2 3) = 0 ->
    found_ref_coords (snd (locate_cell tol no_flat_test inside_column_1
          (exhaustive_xtr 2 3) temp0 found0 dist0)) =
      fst (no_flat_test (fst (locate_cell tol no_flat_test inside_column_1
          (exhaustive_xtr 2 3) temp0 found0 dist0))) /\
    found_ref_cell_dist_l1 (snd (locate_cell tol no_flat_test inside_column_1
          (exhaustive_xtr 2 3) temp0 found0 dist0)) =
      snd (no_flat_test (fst (locate_cell tol no_flat_test inside_column_1
          (exhaustive_xtr 2 3) temp0 found0 dist0)))) /\
   (extruded (exhaustive_xtr 2 3) <> 0 ->
    0 <= fst (decode (fst (locate_cell tol no_flat_test inside_column_1
          (exhaustive_xtr 2 3) temp0 found0 dist0)) 3) < 2 /\
    0 <= snd (decode (fst (locate_cell tol no_flat_test inside_column_1
          (exhaustive_xtr 2 3) temp0 found0 dist0)) 3) < 3 /\
    found_ref_coords (snd (locate_cell tol no_flat_test inside_column_1
          (exhaustive_xtr 2 3) temp0 found0 dist0)) =
      fst (inside_column_1
             (fst (decode (fst (locate_cell tol no_flat_test inside_column_1
                (exhaustive_xtr 2 3) temp0 found0 dist0)) 3))
             (snd (decode (fst (locate_cell tol no_flat_test inside_column_1
                (exhaustive_xtr 2 3) temp0 found0 dist0)) 3))) /\
    found_ref_cell_dist_l1 (snd (locate_cell tol no_flat_test inside_column_1
          (exhaustive_xtr 2 3) temp0 found0 dist0)) =
      snd (inside_column_1
             (fst (decode (fst (locate_cell tol no_flat_test inside_column_1
                (exhaustive_xtr 2 3) temp0 found0 dist0)) 3))
             (snd (decode (fst (locate_cell tol no_flat_test inside_column_1
                (exhaustive_xtr 2 3) temp0 found0 dist0)) 3))))).
Proof.
  exact (exhaustive_result_in_mesh tol no_flat_test inside_column_1
           (exhaustive_xtr 2 3) temp0 found0 dist0 eq_refl).
Defined.

(** X8, on an exhaustive flat search that accepts cell 0 under tolerance
    and still tests cell 1. *)
Lemma single_loop_tests_all_sample :
  calls (snd (locate_cell tol near_cell_0 no_xtr_test (exhaustive_flat 2)
                temp0 found0 dist0)) = [Flat 0; Flat 1].
Proof.
  apply (single_loop_tests_all tol near_cell_0 no_xtr_test (exhaustive_flat 2)
           temp0 found0 dist0).
  - discriminate.
  - each_candidate.
Defined.

(** X9, on id 5 of two columns of three layers. *)
Lemma encode_decode_sample :
  0 <= fst (decode 5 3) < 2 /\ 0 <= snd (decode 5 3) < 3 /\
  encode (fst (decode 5 3)) (snd (decode 5 3)) 3 = 5.
Proof. apply (encode_decode 5 2 3); lia. Defined.

(** X10, on an index that yields the ids 1 and 2 of a flat mesh whose
    containment test fails with a NaN on cell 0. *)
Lemma undefined_distances_ignored_sample :
  fst (locate_cell tol undefined_on_cell_0 no_xtr_test (indexed_flat 2 [1; 2])
         temp0 found0 dist0) =
  fst (locate_cell tol undefined_on_cell_0 no_xtr_test
         (with_index (indexed_flat 2 [1; 2]) [2]) temp0 found0 dist0) /\
  found_ref_coords (snd (locate_cell tol undefined_on_cell_0 no_xtr_test
         (indexed_flat 2 [1; 2]) temp0 found0 dist0)) =
  found_ref_coords (snd (locate_cell tol undefined_on_cell_0 no_xtr_test
         (with_index (indexed_flat 2 [1; 2]) [2]) temp0 found0 dist0)) /\
  found_ref_cell_dist_l1 (snd (locate_cell tol undefined_on_cell_0 no_xtr_test
         (indexed_flat 2 [1; 2]) temp0 found0 dist0)) =
  found_ref_cell_dist_l1 (snd (locate_cell tol undefined_on_cell_0 no_xtr_test
         (with_index (indexed_flat 2 [1; 2]) [2]) temp0 found0 dist0)).
Proof.
  exact (undefined_distances_ignored tol undefined_on_cell_0 no_xtr_test
           (indexed_flat 2 [1; 2]) [1; 2] temp0 found0 dist0 eq_refl).
Defined.

(** X11, on two columns of three layers, column 0 beyond the tolerance and
    column 1 with layer 1 under tolerance and the point inside layer 2. *)
Lemma first_acceptable_column_wins_sample :
  exists l0 n,
    0 <= l0 < 3 /\
    acceptable tol no_flat_test inside_column_1
      (xtr_candidate (exhaustive_xtr 2 3) 1 l0) = true /\
    fst (locate_cell tol no_flat_test inside_column_1 (exhaustive_xtr 2 3)
           temp0 found0 dist0) = encode 1 l0 3 /\
    found_ref_coords (snd (locate_cell tol no_flat_test inside_column_1
           (exhaustive_xtr 2 3) temp0 found0 dist0)) = fst (inside_column_1 1 l0) /\
    found_ref_cell_dist_l1 (snd (locate_cell tol no_flat_test inside_column_1
           (exhaustive_xtr 2 3) temp0 found0 dist0)) = snd (inside_column_1 1 l0) /\
    calls (snd (locate_cell tol no_flat_test inside_column_1
           (exhaustive_xtr 2 3) temp0 found0 dist0)) =
      flat_map (fun c' => map (Xtr c') (range 3)) (range 1)
      ++ map (Xtr 1) (firstn n (range 3)).
Proof.
  apply (first_acceptable_column_wins tol no_flat_test inside_column_1
           (exhaustive_xtr 2 3) temp0 found0 dist0 1 1).
  - reflexivity.
  - discriminate.
  - cbn. lia.
  - cbn. lia.
  - reflexivity.
  - intros c' l' Hc' Hl'. cbn in Hl'.
    assert (c' = 0) as -> by lia.
    assert (l' = 0 \/ l' = 1 \/ l' = 2) as [-> | [-> | ->]] by lia; reflexivity.
Defined.

(** X12, on a search under the tolerance 0 of a point inside cell 1 and
    at distance 0.125 of cell 0. *)
Lemma nonpositive_tolerance_only_exact_hits_sample :
  (fst (locate_cell 0%float inside_cell_1 no_xtr_test (exhaustive_flat 3)
          temp0 found0 dist0) = -1 /\
   found_ref_coords (snd (locate_cell 0%float inside_cell_1 no_xtr_test
          (exhaustive_flat 3) temp0 found0 dist0)) = found0 /\
   found_ref_cell_dist_l1 (snd (locate_cell 0%float inside_cell_1 no_xtr_test
          (exhaustive_flat 3) temp0 found0 dist0)) = dist0) \/
  (exists p, In p (candidates (exhaustive_flat 3)) /\
   fst (locate_cell 0%float inside_cell_1 no_xtr_test (exhaustive_flat 3)
          temp0 found0 dist0) = snd p /\
   found_ref_coords (snd (locate_cell 0%float inside_cell_1 no_xtr_test
          (exhaustive_flat 3) temp0 found0 dist0)) =
     coords inside_cell_1 no_xtr_test (fst p) /\
   found_ref_cell_dist_l1 (snd (locate_cell 0%float inside_cell_1 no_xtr_test
          (exhaustive_flat 3) temp0 found0 dist0)) =
     dist inside_cell_1 no_xtr_test (fst p) /\
   (dist inside_cell_1 no_xtr_test (fst p) <=? 0)%float = true).
Proof.
  apply (nonpositive_tolerance_only_exact_hits 0%float inside_cell_1 no_xtr_test
           (exhaustive_flat 3) temp0 found0 dist0).
  left. reflexivity.
Defined.
